(** * mpi4pyd: the buffer-aware communicator and the dummy MPI layer

    A shallow embedding of [mpi4pyd/dummyMPI.py] and
    [mpi4pyd/MPI/_buffer_comm.py].  Python objects that the code mutates in
    place (NumPy arrays) live in an explicit store and are passed around by
    reference; lists and tuples are immutable sequences of values. *)

From Stdlib Require Import ZArith Lia String.
From Stdlib Require HexString.
From stdpp Require Import base option list gmap strings.

Local Open Scope Z_scope.

(** ** Python values and the array store *)

(** Element types of NumPy arrays (only their identity matters). *)
Inductive dtype := Float64 | Int64 | Int32 | Bool8.

Global Instance dtype_eq_dec : EqDecision dtype.
Proof. solve_decision. Defined.

(** A NumPy array: its shape, its element type and its elements in
    row-major (C) order. *)
Record ndarray := NDArray {
  shape : list nat;
  dtype_of : dtype;
  data : list Z
}.

Global Instance ndarray_eq_dec : EqDecision ndarray.
Proof. solve_decision. Defined.

(** [np.product] of a shape. *)
Definition product (s : list nat) : nat := foldr Nat.mul 1%nat s.

(** An array is well formed when it holds exactly [product shape] elements. *)
Definition wf_array (a : ndarray) : Prop := length (data a) = product (shape a).

(** Store locations: the identity of an array object. *)
Abbreviation loc := nat (only parsing).

Inductive seqkind := KList | KTuple.

Global Instance seqkind_eq_dec : EqDecision seqkind.
Proof. solve_decision. Defined.

#[warnings="-register-all"] Inductive pyval :=
  | VNone
  | VInt (z : Z)
  | VStr (s : string)
  | VDtype (d : dtype)
  | VSeq (k : seqkind) (items : list pyval)
  | VArr (l : loc).

(** The store of one process: array objects indexed by location.  A new
    array is allocated at the end. *)
Abbreviation store := (list ndarray) (only parsing).

Definition alloc (h : store) (a : ndarray) : loc * store :=
  (length h, h ++ [a]).

(** A function that passes a state along, applied to the items of a list
    from left to right. *)
Fixpoint thread {A B S : Type} (f : A -> S -> B * S) (xs : list A) (s : S)
  : list B * S :=
  match xs with
  | [] => ([], s)
  | x :: xs' =>
      let '(y, s1) := f x s in
      let '(ys, s2) := thread f xs' s1 in
      (y :: ys, s2)
  end.

(** Python exceptions the modelled code can raise. *)
Inductive exn :=
  | IndexError
  | AttributeError
  | ValueError
  | TypeError
  | OverflowError
  | SystemError
  | InputError (msg : string) (args : list Z).

Inductive result (A : Type) :=
  | Ok (a : A)
  | Raise (e : exn).
Arguments Ok {A} a.
Arguments Raise {A} e.

Global Instance result_ret : MRet result := fun _ a => Ok a.
Global Instance result_fmap : FMap result := fun _ _ f m =>
  match m with
  | Ok a => Ok (f a)
  | Raise e => Raise e
  end.
Global Instance result_bind : MBind result := fun _ _ f m =>
  match m with
  | Ok a => f a
  | Raise e => Raise e
  end.

(** A shape as the Python value the code passes around: a tuple of ints. *)
Definition shape_val (s : list nat) : pyval :=
  VSeq KTuple (map (fun n => VInt (Z.of_nat n)) s).

Definition to_dim (v : pyval) : option nat :=
  match v with
  | VInt z => if decide (0 <= z) then Some (Z.to_nat z) else None
  | _ => None
  end.

Definition to_shape (v : pyval) : option (list nat) :=
  match v with
  | VSeq _ items => mapM to_dim items
  | _ => None
  end.

(** What the code takes from the Python and NumPy run time and this
    development does not define: element conversion between two different
    element types, the conversion of an object that is not an array to an
    array ([np.asarray]), iteration over and the subscription [obj[0]] of an
    object that is not a list or tuple, [obj.__sizeof__()], and the junk an uninitialised array ([np.empty]) holds. *)
Record runtime := Runtime {
  cast : dtype -> dtype -> Z -> Z;
  asarray : pyval -> result ndarray;
  iterate : store -> pyval -> result (list pyval);
  getitem0 : store -> pyval -> result (pyval * store);
  sizeof : store -> pyval -> Z;
  junk : nat -> Z
}.

(** [np.empty(shape, dtype)]: an array of the given shape and element type
    with unspecified contents. *)
Definition np_empty (rt : runtime) (s : list nat) (d : dtype) : ndarray :=
  NDArray s d (map (junk rt) (seq 0 (product s))).

(** Conversion of one element from element type [src] to [dst]. *)
Definition astype (rt : runtime) (src dst : dtype) (v : Z) : Z :=
  if decide (src = dst) then v else cast rt src dst v.

(** The items a value yields when it is iterated over. *)
Definition iter_items (rt : runtime) (h : store) (v : pyval)
  : result (list pyval) :=
  match v with
  | VSeq _ items => Ok items
  | _ => iterate rt h v
  end.

(** [obj.__class__.__name__]. *)
Definition class_name (v : pyval) : string :=
  match v with
  | VNone => "NoneType"
  | VInt _ => "int"
  | VStr _ => "str"
  | VDtype _ => "dtype"
  | VSeq KList _ => "list"
  | VSeq KTuple _ => "tuple"
  | VArr _ => "ndarray"
  end.

(** NumPy is used by the repository and is not part of it; its functions
    are written out here as far as the code depends on them.

    A NumPy number: an integer, or the
    float [1.0] that [np.product] gives for an empty sequence. *)
Inductive npnum := NpInt (n : nat) | NpFloatOne.

Definition np_product (s : list nat) : npnum :=
  match s with
  | [] => NpFloatOne
  | _ => NpInt (product s)
  end.

(** [np.all(shape)]: no axis has extent 0. *)
Definition np_all (s : list nat) : bool :=
  forallb (fun d => negb (d =? 0)%nat) s.

(** [np.max(shapes, axis=0)]: the maximum along every axis over a list of
    shapes, which must be non-empty and all of the same number of
    dimensions to make an array. *)
Definition np_max_axis0 (shapes : list (list nat)) : result (list nat) :=
  match shapes with
  | [] => Raise ValueError
  | s :: rest =>
      if forallb (fun t => length t =? length s)%nat rest
      then Ok (foldl (zip_with Nat.max) s rest)
      else Raise ValueError
  end.

(** [a.ravel()]: the elements of [a] as a one-dimensional array. *)
Definition ravel (a : ndarray) : ndarray :=
  NDArray [length (data a)] (dtype_of a) (data a).

(** [a.reshape(s)]: [ValueError] unless [s] holds as many elements. *)
Definition reshape (a : ndarray) (s : list nat) : result ndarray :=
  if decide (length (data a) = product s)
  then Ok (NDArray s (dtype_of a) (data a))
  else Raise ValueError.

(** ** NumPy broadcasting, as used by the slice assignment [dst[:] = src] *)

(** [chunks n sz d]: the [n] consecutive rows of [sz] elements of [d]. *)
Fixpoint chunks (n sz : nat) (d : list Z) : list (list Z) :=
  match n with
  | O => []
  | S n' => take sz d :: chunks n' sz (drop sz d)
  end.

(** The elements of an array of shape [ss] broadcast to the shape [rs] of
    the same number of dimensions: along every axis the extents agree or
    the source extent is 1. *)
Fixpoint broadcast_data (ss rs : list nat) (d : list Z) : option (list Z) :=
  match ss, rs with
  | [], [] => Some d
  | s :: ss', r :: rs' =>
      if decide (s = r) then
        @concat Z <$> mapM (broadcast_data ss' rs') (chunks s (product ss') d)
      else if decide (s = 1%nat) then
        (fun row => @concat Z (replicate r row)) <$> broadcast_data ss' rs' d
      else None
  | _, _ => None
  end.

(** Leading axes of extent 1 that the source has in excess are dropped. *)
Fixpoint strip_ones (k : nat) (ss : list nat) : option (list nat) :=
  match k with
  | O => Some ss
  | S k' => match ss with
            | 1%nat :: ss' => strip_ones k' ss'
            | _ => None
            end
  end.

(** The source shape brought to [n] dimensions. *)
Definition align_shape (n : nat) (ss : list nat) : option (list nat) :=
  if decide (length ss <= n)%nat
  then Some (replicate (n - length ss) 1%nat ++ ss)
  else strip_ones (length ss - n) ss.

(** [dst[:] = value] on an array [dst]: the new contents of [dst].  The
    index comes first: an array of no dimension cannot be sliced and the
    assignment raises [IndexError] whatever the value.  Then the value is
    made an array [src] (an exception of that conversion ends the
    assignment), and its elements are broadcast to the shape of [dst], or
    [ValueError] is raised when the shapes cannot be broadcast. *)
Definition setitem_all (rt : runtime) (dst : ndarray)
  (value : result ndarray) : result ndarray :=
  if decide (shape dst = []) then Raise IndexError
  else
    src ← value;
    match align_shape (length (shape dst)) (shape src) with
    | Some ss =>
        match broadcast_data ss (shape dst) (data src) with
        | Some d => Ok (NDArray (shape dst) (dtype_of dst)
                          (map (astype rt (dtype_of src) (dtype_of dst)) d))
        | None => Raise ValueError
        end
    | None => Raise ValueError
    end.

(** ** The dummy MPI layer ([dummyMPI.py]) *)

Module dummyMPI.

(** [copy.deepcopy]: arrays are copied into fresh store cells, the memo
    keeps one copy per original object, sequences are rebuilt around the
    copies of their items, everything else is immutable and returned as it
    is.  A location with no object behind it cannot arise in Python; it is
    returned unchanged. *)
Fixpoint deepcopy (v : pyval) (st : gmap loc loc * store)
  : pyval * (gmap loc loc * store) :=
  match v with
  | VArr l =>
      match st.1 !! l with
      | Some l' => (VArr l', st)
      | None =>
          match st.2 !! l with
          | Some a => let '(l', h') := alloc st.2 a in
                      (VArr l', (<[l := l']> st.1, h'))
          | None => (VArr l, st)
          end
      end
  | VSeq k items =>
      let '(items', st') := thread deepcopy items st in
      (VSeq k items', st')
  | _ => (v, st)
  end.


(** [copy(sendbuf)] with a new memo. *)
Definition copy (v : pyval) (h : store) : pyval * store :=
  let '(v', (_, h')) := deepcopy v (∅, h) in (v', h').

Definition _get_buffer (buff : pyval) : result pyval :=
  match buff with
  | VSeq _ [] => Raise IndexError
  | VSeq _ (x :: _) => Ok x
  | _ => Ok buff
  end.

(** The array a payload stands for on the right of [recvbuf[:] = sendbuf]. *)
Definition payload_array (rt : runtime) (h : store) (v : pyval)
  : result ndarray :=
  match v with
  | VArr l => match h !! l with
              | Some a => Ok a
              | None => Raise ValueError
              end
  | _ => asarray rt v
  end.

(** [recvbuf[:] = sendbuf] is NumPy's slice assignment when [recvbuf] is
    an array, the replacement of the items when it is a list (lists are
    values here, so the new list is what is returned), and a [TypeError]
    on anything else.  A location with no object behind it cannot arise
    in Python and gives [ValueError]. *)
Definition _scatter_gather (rt : runtime) (sendbuf recvbuf : pyval)
  (h : store) : result (pyval * store) :=
  sendbuf ← _get_buffer sendbuf;
  recvbuf ← _get_buffer recvbuf;
  match recvbuf with
  | VNone => Ok (copy sendbuf h)
  | VArr l =>
      match h !! l with
      | Some dst =>
          new ← setitem_all rt dst (payload_array rt h sendbuf);
          Ok (VArr l, <[l := new]> h)
      | None => Raise ValueError
      end
  | VSeq KList _ =>
      items ← iter_items rt h sendbuf;
      Ok (VSeq KList items, h)
  | _ => Raise TypeError
  end.

(** [np.isscalar]: Python numbers and strings are scalars; [None],
    sequences, element types and arrays are not. *)
Definition isscalar (v : pyval) : bool :=
  match v with
  | VInt _ | VStr _ => true
  | _ => false
  end.

(** The communicator object: [_name], [_rank] and [_size]. *)
Record Comm := MkComm {
  _name : string;
  _rank : nat;
  _size : nat
}.

(** [Intracomm(name)]: [Comm.__init__] finds [_name] set by the name
    setter and prefixes it unless it starts with [dummyMPI_]. *)
Definition Intracomm (name : string) : Comm :=
  MkComm (if String.prefix "dummyMPI_" name then name
          else "dummyMPI_" +:+ name) 0 1.

Definition COMM_WORLD : Comm := Intracomm "dummyMPI_COMM_WORLD".
Definition COMM_SELF : Comm := Intracomm "dummyMPI_COMM_SELF".

Definition Get_name (c : Comm) : string := _name c.
Definition Get_rank (c : Comm) : nat := _rank c.
Definition Get_size (c : Comm) : nat := _size c.

(** The collectives.  The extra positional and keyword arguments the
    methods accept ([*args], [**kwargs]) are ignored by every one of them
    and are left out. *)
Definition Bcast (buf : pyval) : pyval := buf.
Definition bcast (obj : pyval) : pyval := obj.

Definition Gather := _scatter_gather.
Definition gather (sendobj : pyval) : pyval := VSeq KList [sendobj].
Definition Gatherv := _scatter_gather.
Definition Reduce := _scatter_gather.

Definition reduce (rt : runtime) (sendobj : pyval) (h : store)
  : result (pyval * store) :=
  if isscalar sendobj then Ok (sendobj, h)
  else _scatter_gather rt sendobj VNone h.


Definition scatter (rt : runtime) (sendobj : pyval) (h : store)
  : result (pyval * store) :=
  match sendobj with
  | VSeq _ [] => Raise IndexError
  | VSeq _ (x :: _) => Ok (x, h)
  | _ => getitem0 rt h sendobj
  end.


Definition Allgather := Gather.
Definition allgather := gather.
Definition Allgatherv := Gatherv.
Definition Allreduce := Reduce.
Definition allreduce := reduce.

Definition Sendrecv (sendbuf : pyval) : pyval := sendbuf.
Definition sendrecv (sendobj : pyval) : pyval := sendobj.

End dummyMPI.

(** ** The transport: collectives over a group of processes

    The communicator of [mpi4py] is used by the repository and is not part
    of it.  Its collectives are modelled here from the interface the spec
    gives ([generic_broadcast], [generic_gather], [typed_broadcast],
    [typed_gather], and the failure of the generic path above
    [2 ^ 31 - 1] bytes); the methods of [_buffer_comm.py] are written
    against the calls and run either on this model or on the dummy
    layer. *)

Module Transport.

(** A message on the generic path: the pickled value, with the arrays it
    holds by contents. *)
#[warnings="-register-all"] Inductive pickled :=
  | PNone
  | PInt (z : Z)
  | PStr (s : string)
  | PDtype (d : dtype)
  | PSeq (k : seqkind) (items : list pickled)
  | PArr (a : ndarray).

(** Modelled from the spec: the generic path serializes the value.
    Pickling reads the arrays out of the sender's store; a location with
    no object behind it has no pickle. *)
Fixpoint pickle (h : store) (v : pyval) : option pickled :=
  match v with
  | VNone => Some PNone
  | VInt z => Some (PInt z)
  | VStr s => Some (PStr s)
  | VDtype d => Some (PDtype d)
  | VSeq k items =>
      PSeq k <$> mapM (pickle h) items
  | VArr l => PArr <$> h !! l
  end.

(** Modelled from the spec: the receiver of a generic message gets a
    value of its own.  Unpickling builds it in the receiver's store, every
    array in a new cell. *)
Fixpoint unpickle (m : pickled) (h : store) : pyval * store :=
  match m with
  | PNone => (VNone, h)
  | PInt z => (VInt z, h)
  | PStr s => (VStr s, h)
  | PDtype d => (VDtype d, h)
  | PSeq k items =>
      let '(vs, h') := thread unpickle items h in
      (VSeq k vs, h')
  | PArr a => let '(l, h') := alloc h a in (VArr l, h')
  end.

(** Modelled from the spec: what is taken from the transport is the size
    in bytes of a pickled message, on which the generic primitives fail
    above [ceiling] bytes, and what a typed gather does in the cases the
    spec does not give: a send buffer whose element type is not that of
    the receive buffer (the bytes of one element type read as another) or
    that holds more elements than its block of the receive buffer.
    [typed_misfit buf bufs] is then the new contents of the receive buffer
    [buf], or the exception of the root. *)
Record transport := MkTransport {
  pickled_size : pickled -> Z;
  typed_misfit : ndarray -> list ndarray -> result ndarray
}.

Definition ceiling : Z := 2 ^ 31 - 1.

Definition oversized (tr : transport) (m : pickled) : bool :=
  bool_decide (ceiling < pickled_size tr m).

(** The calls a process makes on the wrapped communicator [comm]. *)
Inductive call :=
  | bcast (obj : pyval) (root : nat)
  | Bcast (buf : loc) (root : nat)
  | gather (obj : pyval) (root : nat)
  | Gatherv (sendbuf : loc) (recvbuf : option loc) (root : nat).

(** A process: it has returned or raised, or it is at a call, with its
    store and what it does with the call's result. *)
Inductive proc :=
  | Return (v : pyval) (h : store)
  | Throw (e : exn) (h : store)
  | Call (c : call) (h : store) (k : result pyval -> store -> proc).

Definition root_of (c : call) : nat :=
  match c with
  | bcast _ r | Bcast _ r | gather _ r | Gatherv _ _ r => r
  end.

(** Two calls match when they are the same collective with the same root. *)
Definition matches (c : call) (p : proc) : bool :=
  match p with
  | Call c' _ _ =>
      match c, c' with
      | bcast _ r, bcast _ r' | Bcast _ r, Bcast _ r'
      | gather _ r, gather _ r' | Gatherv _ _ r, Gatherv _ _ r' =>
          bool_decide (r = r')
      | _, _ => false
      end
  | _ => false
  end.

(** Modelled from the spec: the failure signal of the generic path,
    which is detected on the root only.  Failures a process meets on its
    own, before any communication: the root whose own generic message is
    of more than [ceiling] bytes gets [OverflowError] from [bcast] and
    [SystemError] from [gather].  (A value with no pickle cannot arise in
    Python and gives [ValueError].) *)
Definition local (tr : transport) (rank : nat) (p : proc) : proc :=
  match p with
  | Call (bcast obj root) h k =>
      if decide (rank = root) then
        match pickle h obj with
        | Some m => if oversized tr m then k (Raise OverflowError) h else p
        | None => k (Raise ValueError) h
        end
      else p
  | Call (gather obj root) h k =>
      match pickle h obj with
      | Some m =>
          if decide (rank = root) then
            if oversized tr m then k (Raise SystemError) h else p
          else p
      | None => k (Raise ValueError) h
      end
  | _ => p
  end.

(** Modelled from the spec: the typed primitives work in place.  A
    message received into a buffer that has room for it: its elements are
    written from the start of the buffer and the rest of the buffer is
    left as it was.  (A message that does not fit is not received this
    way, see [typed_gather] and [typed_recv].) *)
Definition write_prefix (old msg : list Z) : list Z :=
  take (length old) msg ++ drop (length msg) old.

Definition recv_into (buf : ndarray) (msg : list Z) : ndarray :=
  NDArray (shape buf) (dtype_of buf) (write_prefix (data buf) msg).

(** Modelled from the spec: [typed_gather] into the root's buffer, a raw
    memory copy.  The receive buffer of a gather over [n] processes is cut
    in [n] blocks of equal length and the message of rank [i] is received
    into block [i]. *)
Definition gather_into (n : nat) (buf : ndarray) (msgs : list (list Z))
  : ndarray :=
  let c := (length (data buf) / n)%nat in
  NDArray (shape buf) (dtype_of buf)
    (concat (zip_with write_prefix (chunks n c (data buf)) msgs)
       ++ drop (n * c) (data buf)).

(** The send buffers of a typed gather over [n] processes fit the receive
    buffer [buf] when each has its element type, so that the copied bytes
    are the same elements, and no more elements than a block holds. *)
Definition fits (n : nat) (buf : ndarray) (bufs : list ndarray) : bool :=
  forallb (fun b =>
             bool_decide (dtype_of b = dtype_of buf) &&
             bool_decide (length (data b) <= length (data buf) / n)%nat)
    bufs.

(** The receive buffer after the typed broadcast of the buffer [a] of
    the root: the copy when [a] fits, what the transport makes of it
    otherwise. *)
Definition typed_recv (tr : transport) (buf a : ndarray) : result ndarray :=
  if fits 1 buf [a] then Ok (recv_into buf (data a))
  else typed_misfit tr buf [a].

(** The receive buffer after the typed gather: the copy when the send
    buffers fit, what the transport makes of it otherwise. *)
Definition typed_gather (tr : transport) (n : nat) (buf : ndarray)
  (bufs : list ndarray) : result ndarray :=
  if fits n buf bufs then Ok (gather_into n buf (data <$> bufs))
  else typed_misfit tr buf bufs.

(** The message a process contributes to the pending collective. *)
Definition sent_pickle (p : proc) : option pickled :=
  match p with
  | Call (bcast obj _) h _ | Call (gather obj _) h _ => pickle h obj
  | _ => None
  end.

Definition sent_buffer (p : proc) : option ndarray :=
  match p with
  | Call (Bcast l _) h _ | Call (Gatherv l _ _) h _ => h !! l
  | _ => None
  end.

(** Modelled from the spec: what one process gets out of a completed
    collective with root [r].  The root of [bcast] gets its own object
    back and the others the unpickled message of the root; [Bcast] writes
    the root's buffer into the buffer of every other process; the root of
    [gather] gets the list of the unpickled messages by rank, or
    [SystemError] when one of them is of more than [ceiling] bytes, and
    the others [None]; [Gatherv] writes the send buffers into the blocks
    of the root's receive buffer. *)
Definition deliver (tr : transport) (ps : list proc) (r : nat) (rank : nat)
  (p : proc) : proc :=
  match p with
  | Call (bcast obj _) h k =>
      if decide (rank = r) then k (Ok obj) h
      else match ps !! r ≫= sent_pickle with
           | Some m => let '(v, h') := unpickle m h in k (Ok v) h'
           | None => p
           end
  | Call (Bcast l _) h k =>
      if decide (rank = r) then k (Ok VNone) h
      else match ps !! r ≫= sent_buffer with
           | Some a =>
               match h !! l with
               | Some buf =>
                   match typed_recv tr buf a with
                   | Ok buf' => k (Ok VNone) (<[l := buf']> h)
                   | Raise e => k (Raise e) h
                   end
               | None => k (Raise ValueError) h
               end
           | None => p
           end
  | Call (gather obj _) h k =>
      if decide (rank = r) then
        match mapM sent_pickle ps with
        | Some ms =>
            if existsb (oversized tr) ms then k (Raise SystemError) h
            else let '(v, h') := unpickle (PSeq KList ms) h in k (Ok v) h'
        | None => p
        end
      else k (Ok VNone) h
  | Call (Gatherv _ recvbuf _) h k =>
      if decide (rank = r) then
        match recvbuf, mapM sent_buffer ps with
        | Some l, Some bufs =>
            match h !! l with
            | Some buf =>
                match typed_gather tr (length ps) buf bufs with
                | Ok buf' => k (Ok VNone) (<[l := buf']> h)
                | Raise e => k (Raise e) h
                end
            | None => k (Raise ValueError) h
            end
        | None, _ => k (Raise TypeError) h
        | _, None => p
        end
      else k (Ok VNone) h
  | _ => p
  end.

(** Modelled from the spec: a collective completes when all processes of
    the group have called it.  One step of the group: local failures
    first; then, when every process
    is at the same collective with the same valid root, the collective
    completes.  Otherwise nothing moves. *)
Definition step (tr : transport) (ps : list proc) : list proc :=
  let ps := imap (local tr) ps in
  match ps with
  | Call c _ _ :: _ =>
      if forallb (matches c) ps && bool_decide (root_of c < length ps)%nat
      then imap (deliver tr ps (root_of c)) ps
      else ps
  | _ => ps
  end.

(** How a process ends: with a value, with an exception, or waiting for
    ever at a collective that never completes. *)
Inductive outcome :=
  | Returned (v : pyval) (h : store)
  | Raised (e : exn) (h : store)
  | Blocked.

Definition finish (p : proc) : outcome :=
  match p with
  | Return v h => Returned v h
  | Throw e h => Raised e h
  | Call _ _ _ => Blocked
  end.

Definition run (tr : transport) (fuel : nat) (ps : list proc)
  : list outcome :=
  finish <$> Nat.iter fuel (step tr) ps.

End Transport.

(** ** The buffer-aware communicator ([_buffer_comm.py]) *)

Module BufferComm.
Import Transport.

Definition ndarray_tag : string := "NumPy ndarray".

Definition size_message : string :=
  "Input argument `obj` has a byte size that cannot be stored in a 32-bit int (%i > %i)!".

Definition too_large_message : string :=
  "Input argument 'obj' is too large!".

(** An exception of a call that the code does not catch ends the method. *)
Definition propagate (next : pyval -> store -> proc)
  (r : result pyval) (h : store) : proc :=
  match r with
  | Ok v => next v h
  | Raise e => Throw e h
  end.

(** [obj_type == 'NumPy ndarray']. *)
Definition is_tag (v : pyval) : bool :=
  match v with
  | VStr s => bool_decide (s = ndarray_tag)
  | _ => false
  end.

(** [obj_type, obj = ...]: exactly two items. *)
Definition unpack2 (rt : runtime) (h : store) (v : pyval)
  : result (pyval * pyval) :=
  items ← iter_items rt h v;
  match items with
  | [a; b] => Ok (a, b)
  | _ => Raise ValueError
  end.

(** [np.empty] applied to the items of the received [[shape, dtype]];
    other argument lists are a [TypeError]. *)
Definition empty_from (rt : runtime) (obj : pyval) : result ndarray :=
  match obj with
  | VSeq _ [s; VDtype d] =>
      match to_shape s with
      | Some sh => Ok (np_empty rt sh d)
      | None => Raise TypeError
      end
  | _ => Raise TypeError
  end.

Section methods.
Context (rt : runtime) (_rank _size : nat).

(** The [try] around the generic broadcast on the sender: [OverflowError]
    becomes the error about the byte size. *)
Definition bcast_sender_except (obj : pyval) (r : result pyval) (h : store)
  : proc :=
  match r with
  | Raise OverflowError =>
      Throw (InputError size_message [sizeof rt h obj; 2 ^ 31 - 1]) h
  | _ => propagate (fun _ h => Return obj h) r h
  end.

Definition bcast_sender (obj : pyval) (root : nat) (h : store) : proc :=
  match obj with
  | VArr l =>
      match h !! l with
      | Some a =>
          Call (bcast (VSeq KList [VStr ndarray_tag;
                  VSeq KList [shape_val (shape a); VDtype (dtype_of a)]]) root)
            h (propagate (fun _ h =>
          Call (Bcast l root) h (propagate (fun _ h =>
          Return obj h))))
      | None => Throw ValueError h
      end
  | _ =>
      Call (bcast (VSeq KList [VStr (class_name obj); obj]) root) h
        (bcast_sender_except obj)
  end.

Definition bcast_receiver (obj : pyval) (root : nat) (h : store) : proc :=
  Call (bcast obj root) h (propagate (fun v h =>
    match unpack2 rt h v with
    | Raise e => Throw e h
    | Ok (obj_type, obj) =>
        if is_tag obj_type then
          match empty_from rt obj with
          | Raise e => Throw e h
          | Ok a =>
              let '(l, h) := alloc h a in
              Call (Bcast l root) h (propagate (fun _ h =>
              Return (VArr l) h))
          end
        else Return obj h
    end)).

Definition bcast (obj : pyval) (root : nat) (h : store) : proc :=
  if decide (_rank = root) then bcast_sender obj root h
  else bcast_receiver obj root h.

(** The shapes the root gets from the gather of shapes. *)
Definition decode_shapes (v : pyval) : option (list (list nat)) :=
  match v with
  | VSeq _ items => mapM to_shape items
  | _ => None
  end.

(** Iterating over a two-dimensional array: its rows. *)
Definition rows (a : ndarray) : list ndarray :=
  match shape a with
  | n :: rest =>
      (fun d => NDArray rest (dtype_of a) d)
        <$> chunks n (product rest) (data a)
  | [] => []
  end.

(** The loop over [zip(buff, shapes)]: the first [np.product(shape)]
    elements of each row, reshaped, as a new array object. *)
Fixpoint arr_list (rws : list ndarray) (shapes : list (list nat))
  (h : store) : result (list pyval * store) :=
  match rws, shapes with
  | array :: rws', shape :: shapes' =>
      match np_product shape with
      | NpInt n =>
          let array_temp :=
            NDArray [length (take n (data array))] (dtype_of array)
              (take n (data array)) in
          a ← reshape array_temp shape;
          let '(l, h) := alloc h a in
          '(vs, h) ← arr_list rws' shapes' h;
          Ok (VArr l :: vs, h)
      | NpFloatOne => Raise TypeError (* a float as slice index *)
      end
  | _, _ => Ok ([], h)
  end.

Definition gather_receiver_end (lb : loc) (shapes : list (list nat))
  (h : store) : proc :=
  match h !! lb with
  | Some buff =>
      match arr_list (rows buff) shapes h with
      | Ok (vs, h) => Return (VSeq KList vs) h
      | Raise e => Throw e h
      end
  | None => Throw ValueError h
  end.

(** A process that is not the root sends its array, flattened. *)
Definition gather_send (obj : ndarray) (root : nat) (h : store) : proc :=
  let '(ls, h) := alloc h (ravel obj) in
  Call (Gatherv ls None root) h (propagate (fun _ h =>
  Return VNone h)).

(** The root makes the buffer array of [_size] rows of [c] elements,
    gathers into it and cuts it back into the single arrays. *)
Definition gather_recv (obj : ndarray) (shapes : list (list nat)) (c : nat)
  (root : nat) (h : store) : proc :=
  let '(lb, h) := alloc h (np_empty rt [_size; c] (dtype_of obj)) in
  let '(ls, h) := alloc h (ravel obj) in
  Call (Gatherv ls (Some lb) root) h (propagate (fun _ h =>
  gather_receiver_end lb shapes h)).

(** An array with an empty dimension is replaced by a dummy of one
    element. *)
Definition replace_empty (a : ndarray) (l : loc) (h : store) : loc * store :=
  if np_all (shape a) then (l, h)
  else alloc h (np_empty rt (replicate (length (shape a)) 1%nat) (dtype_of a)).

(** What follows the gather of the shapes. *)
Definition gather_shaped (a : ndarray) (l : loc) (root : nat)
  (shapes : pyval) (h : store) : proc :=
  let '(lobj, h) := replace_empty a l h in
  match h !! lobj with
  | None => Throw ValueError h
  | Some obj =>
      if decide (_rank = root) then
        match decode_shapes shapes with
        | None => Throw TypeError h
        | Some shapes =>
            match np_max_axis0 shapes with
            | Raise e => Throw e h
            | Ok m =>
                match np_product m with
                | NpFloatOne => Throw TypeError h (* a float in a shape *)
                | NpInt c => gather_recv obj shapes c root h
                end
            end
        end
      else gather_send obj root h
  end.

Definition gather_array (a : ndarray) (l : loc) (root : nat) (h : store)
  : proc :=
  Call (Transport.gather (shape_val (shape a)) root) h
    (propagate (gather_shaped a l root)).

Definition gather (obj : pyval) (root : nat) (h : store) : proc :=
  match obj with
  | VArr l =>
      match h !! l with
      | Some a => gather_array a l root h
      | None => Throw ValueError h
      end
  | _ =>
      Call (Transport.gather obj root) h
        (fun r h =>
           match r with
           | Raise SystemError => Throw (InputError too_large_message []) h
           | _ => propagate (fun buff h => Return buff h) r h
           end)
  end.

End methods.

(** The wrapper around a communicator of the dummy layer: every call on
    [comm] is the method of [dummyMPI.Comm], and [_rank] and [_size] are
    those of the communicator. *)
Fixpoint run_dummy (rt : runtime) (p : proc) : outcome :=
  match p with
  | Return v h => Returned v h
  | Throw e h => Raised e h
  | Call c h k =>
      match c with
      | Transport.bcast obj _ => run_dummy rt (k (Ok (dummyMPI.bcast obj)) h)
      | Transport.Bcast buf _ =>
          run_dummy rt (k (Ok (dummyMPI.Bcast (VArr buf))) h)
      | Transport.gather obj _ =>
          run_dummy rt (k (Ok (dummyMPI.gather obj)) h)
      | Transport.Gatherv sendbuf recvbuf _ =>
          match dummyMPI.Gatherv rt (VArr sendbuf)
                  (from_option VArr VNone recvbuf) h with
          | Ok (v, h') => run_dummy rt (k (Ok v) h')
          | Raise e => run_dummy rt (k (Raise e) h)
          end
      end
  end.

Definition dummy_bcast (rt : runtime) (c : dummyMPI.Comm) (obj : pyval)
  (root : nat) (h : store) : outcome :=
  run_dummy rt (bcast rt (dummyMPI.Get_rank c) obj root h).

Definition dummy_gather (rt : runtime) (c : dummyMPI.Comm) (obj : pyval)
  (root : nat) (h : store) : outcome :=
  run_dummy rt
    (gather rt (dummyMPI.Get_rank c) (dummyMPI.Get_size c) obj root h).

(** Every process of a group calls the method, each with its own argument
    and store; the rank of a process is its place in the list. *)
Definition group_bcast (rt : runtime) (root : nat)
  (inputs : list (pyval * store)) : list proc :=
  imap (fun rank x => bcast rt rank x.1 root x.2) inputs.

Definition group_gather (rt : runtime) (root : nat)
  (inputs : list (pyval * store)) : list proc :=
  imap (fun rank x => gather rt rank (length inputs) x.1 root x.2) inputs.

(** The descriptor of an array as the root of a broadcast builds it. *)
Definition descriptor_val (a : ndarray) : pyval :=
  VSeq KList [VStr ndarray_tag;
              VSeq KList [shape_val (shape a); VDtype (dtype_of a)]].

(** A broadcast of the array [a], the object [l] of the root's store [hr]:
    the group after the descriptor has been broadcast, *)
Definition array_announced (rt : runtime) (root : nat) (l : loc)
  (hr : store) (a : ndarray) (i : nat) (x : pyval * store) : proc :=
  if decide (i = root) then
    Call (Transport.Bcast l root) hr
      (propagate (fun _ h => Return (VArr l) h))
  else
    Call (Transport.Bcast (length x.2) root)
      (x.2 ++ [np_empty rt (shape a) (dtype_of a)])
      (propagate (fun _ h => Return (VArr (length x.2)) h)).

(** and after the buffer has been broadcast. *)
Definition array_received (root : nat) (l : loc) (hr : store) (a : ndarray)
  (i : nat) (x : pyval * store) : proc :=
  if decide (i = root) then Return (VArr l) hr
  else Return (VArr (length x.2)) (x.2 ++ [a]).

(** A broadcast of the object [obj] that is not an array, pickled as [m]:
    the group after the broadcast, *)
Definition generic_received (root : nat) (obj : pyval) (hr : store)
  (m : pickled) (i : nat) (x : pyval * store) : proc :=
  if decide (i = root) then Return obj hr
  else let '(v, h) := unpickle m x.2 in Return v h.

(** and the group after the sender has found the message too large. *)
Definition generic_failed (rt : runtime) (root : nat) (obj : pyval)
  (hr : store) (i : nat) (x : pyval * store) : proc :=
  if decide (i = root) then
    Throw (InputError size_message [sizeof rt hr obj; 2 ^ 31 - 1]) hr
  else bcast_receiver rt x.1 root x.2.

(** What the sender of an object that is not an array puts on the wire. *)
Definition generic_message (obj : pyval) (m : pickled) : pickled :=
  PSeq KList [PStr (class_name obj); m].

(** A process whose argument is the array [a] of its store. *)
Definition holds_array (x : pyval * store) (a : ndarray) : Prop :=
  exists l, x.1 = VArr l /\ x.2 !! l = Some a.

(** What a process sends in place of the array [a] in a gather: the array
    itself, or the dummy when a dimension is empty. *)
Definition send_object (rt : runtime) (a : ndarray) : ndarray :=
  if np_all (shape a) then a
  else np_empty rt (replicate (length (shape a)) 1%nat) (dtype_of a).

(** A gather of arrays: the group after the shapes have been gathered, *)
Definition shapes_gathered (rt : runtime) (root : nat)
  (arrays : list ndarray) (i : nat) (x : pyval * store) : proc :=
  match x.1 with
  | VArr l =>
      match x.2 !! l with
      | Some a =>
          gather_shaped rt i (length arrays) a l root
            (if decide (i = root)
             then VSeq KList (shape_val <$> (shape <$> arrays))
             else VNone) x.2
      | None => Throw ValueError x.2
      end
  | _ => Throw ValueError x.2
  end.

(** the group after the arrays have been gathered, *)
Definition arrays_gathered (tr : transport) (rt : runtime) (root : nat)
  (inputs : list (pyval * store)) (arrays : list ndarray) (i : nat)
  (x : pyval * store) : proc :=
  deliver tr (imap (shapes_gathered rt root arrays) inputs) root i
    (shapes_gathered rt root arrays i x).

(** The gather invariant of the documentation: one number of dimensions,
    and the same extent along every axis but [k]. *)
Definition one_axis_differs (k : nat) (shapes : list (list nat)) : Prop :=
  forall s t j, s ∈ shapes -> t ∈ shapes -> j <> k -> s !! j = t !! j.

(** the number of elements in a row of the root's buffer, *)
Definition row_capacity (shapes : list (list nat)) : nat :=
  match np_max_axis0 shapes with
  | Ok m => product m
  | Raise _ => 0%nat
  end.

(** the arrays the root cuts out of its buffer, *)
Definition gathered_arrays (d : dtype) (arrays : list ndarray)
  : list ndarray :=
  (fun a => NDArray (shape a) d (data a)) <$> arrays.

(** The pickle of a shape. *)
Definition shape_pickle (s : list nat) : pickled :=
  PSeq KTuple ((fun n => PInt (Z.of_nat n)) <$> s).

(** The pickle of the descriptor the root of a broadcast sends ahead of an
    array. *)
Definition descriptor (a : ndarray) : pickled :=
  PSeq KList [PStr ndarray_tag;
              PSeq KList [shape_pickle (shape a); PDtype (dtype_of a)]].

End BufferComm.

(** ** The registry of wrappers ([get_BufferComm_obj]) *)

Module Registry.

(** The class of an object, as far as [isinstance] and the factory see it:
    an intra-communicator of [mpi4py] or of the dummy layer, a [BufferComm]
    (a subclass of the class of the communicator it wraps), anything
    else. *)
Inductive pyclass :=
  | MPI_Intracomm
  | dummyMPI_Intracomm
  | BufferComm (base : pyclass) (comm : N)
  | OtherClass.

(** The objects of the process by identity ([id]), the registry, and
    [MPI.COMM_WORLD]. *)
Record state := MkState {
  objects : gmap N pyclass;
  buffer_comm_registry : gmap string N;
  COMM_WORLD : N
}.

Definition class_of (st : state) (o : N) : pyclass :=
  default OtherClass (objects st !! o).

(** [isinstance(comm, (MPI.Intracomm, dummyMPI.Intracomm))]. *)
Fixpoint is_intracomm (c : pyclass) : bool :=
  match c with
  | MPI_Intracomm | dummyMPI_Intracomm => true
  | BufferComm base _ => is_intracomm base
  | OtherClass => false
  end.

(** [hex(id(comm))]. *)
Definition hex (o : N) : string := HexString.of_N o.

(** [comm in buffer_comm_registry.values()], for an argument that is an
    open communicator or an object the factory made.  [in] compares by
    identity and then with [==]; the objects of the dummy layer have the
    [==] of [object], which is identity, and a communicator of [mpi4py]
    that holds a handle is [==] to no wrapper, since a wrapper, made by
    [BufferComm()], holds the null handle.  (A communicator of [mpi4py]
    that itself holds the null handle is [==] to every such wrapper; it
    is not a communicator of any group and is not modelled.) *)
Definition is_value (st : state) (o : N) : bool :=
  bool_decide (o ∈ (map_to_list (buffer_comm_registry st)).*2).

(** The factory after its argument check. *)
Definition wrap (comm : N) (st : state) : result N * state :=
  match buffer_comm_registry st !! hex comm with
  | Some buffer_comm => (Ok buffer_comm, st)
  | None =>
      if is_value st comm then (Ok comm, st)
      else
        let buffer_comm := fresh (dom (objects st)) in
        (Ok buffer_comm,
         MkState
           (<[buffer_comm := BufferComm (class_of st comm) comm]> (objects st))
           (<[hex comm := buffer_comm]> (buffer_comm_registry st))
           (COMM_WORLD st))
  end.

Definition get_BufferComm_obj (comm : option N) (st : state)
  : result N * state :=
  match comm with
  | None => wrap (COMM_WORLD st) st
  | Some comm =>
      if is_intracomm (class_of st comm) then wrap comm st
      else (Raise TypeError, st)
  end.

(** What holds of the registry at every point of a run: every entry is
    keyed by the identity of a live communicator and holds a live
    [BufferComm] around that communicator, no wrapper is itself a key, and
    [MPI.COMM_WORLD] is a live intra-communicator. *)
Definition registry_ok (st : state) : Prop :=
  (forall k w, buffer_comm_registry st !! k = Some w ->
     exists comm base,
       k = hex comm /\ is_Some (objects st !! comm) /\
       objects st !! w = Some (BufferComm base comm) /\
       is_intracomm base = true) /\
  (forall k w, buffer_comm_registry st !! k = Some w ->
     buffer_comm_registry st !! hex w = None) /\
  is_Some (objects st !! COMM_WORLD st).

End Registry.

(** ** Attribute access through the wrapper *)

Module Attributes.

(** The value of an attribute: a bound method, a built-in method, or
    anything else. *)
Inductive pyattr :=
  | BoundMethod (f : string)
  | BuiltinMethod (f : string)
  | Plain (v : pyval).

(** [isinstance(x, (BuiltinMethodType, MethodType))]. *)
Definition is_method (a : pyattr) : bool :=
  match a with
  | BoundMethod _ | BuiltinMethod _ => true
  | Plain _ => false
  end.

(** The attribute protocol of a kind of object: [dir], [getattr],
    [setattr] and [delattr]. *)
Class PyObject (O : Type) := {
  py_dir : O -> list string;
  py_getattr : O -> string -> result pyattr;
  py_setattr : O -> string -> pyattr -> result O;
  py_delattr : O -> string -> result O
}.

Section wrapper.
Context {C W : Type} `{PyObject C} `{PyObject W}.

(** [name in dir(comm) and not isinstance(getattr(comm, name),
    method_types)]; [getattr] is only evaluated for a name in [dir(comm)]
    and an exception of it ends the access. *)
Definition forwarded (comm : C) (name : string) : result bool :=
  if bool_decide (name ∈ py_dir comm) then
    match py_getattr comm name with
    | Ok a => Ok (negb (is_method a))
    | Raise e => Raise e
    end
  else Ok false.

(** The wrapper is the pair of the wrapped communicator, which it shares
    with every other holder of it, and of the wrapper object proper, on
    which [super()] works. *)
Definition __getattribute__ (comm : C) (self : W) (name : string)
  : result pyattr :=
  match forwarded comm name with
  | Ok true => py_getattr comm name
  | Ok false => py_getattr self name
  | Raise e => Raise e
  end.

Definition __setattr__ (comm : C) (self : W) (name : string) (value : pyattr)
  : result (C * W) :=
  match forwarded comm name with
  | Ok true => (fun c => (c, self)) <$> py_setattr comm name value
  | Ok false => (fun w => (comm, w)) <$> py_setattr self name value
  | Raise e => Raise e
  end.

Definition __delattr__ (comm : C) (self : W) (name : string)
  : result (C * W) :=
  match forwarded comm name with
  | Ok true => (fun c => (c, self)) <$> py_delattr comm name
  | Ok false => (fun w => (comm, w)) <$> py_delattr self name
  | Raise e => Raise e
  end.

Definition __dir__ (comm : C) (self : W) : list string := py_dir comm.

End wrapper.

(** A plain object, all of whose attributes are entries of its instance
    dictionary: every assignment succeeds and every entry can be deleted.
    This is how both communicator classes and the wrapper hold [_rank]
    and [_size].  It is not how a property of a class (as [name], [rank]
    and [size] of the dummy communicator) or a method of a class
    behaves: what is proved of the wrapper in general is proved for every
    instance of [PyObject]. *)
Global Instance dict_object : PyObject (gmap string pyattr) := {
  py_dir o := (map_to_list o).*1;
  py_getattr o name :=
    match o !! name with Some a => Ok a | None => Raise AttributeError end;
  py_setattr o name a := Ok (<[name := a]> o);
  py_delattr o name :=
    match o !! name with
    | Some _ => Ok (delete name o)
    | None => Raise AttributeError
    end
}.

End Attributes.

(** ** Deep copies *)

Module Copy.


End Copy.

(** ** Concrete inputs *)

Module Examples.

(** A process with the two communicators of [mpi4py] alive and nothing
    registered yet. *)
Definition st0 : Registry.state :=
  Registry.MkState
    {[ 1%N := Registry.MPI_Intracomm; 2%N := Registry.MPI_Intracomm ]} ∅ 1%N.

(** A communicator with a name and a method [bcast], and a wrapper
    object with its own [bcast] and [_rank]. *)
Definition comm0 : gmap string Attributes.pyattr :=
  {[ "name" := Attributes.Plain (VStr "dummyMPI_COMM_WORLD");
     "bcast" := Attributes.BoundMethod "Comm.bcast" ]}.

Definition self0 : gmap string Attributes.pyattr :=
  {[ "bcast" := Attributes.BoundMethod "BufferComm.bcast";
     "_rank" := Attributes.Plain (VInt 0) ]}.

(** A run time whose uninitialised cells hold negative numbers, and in
    which an [int] takes 28 bytes and 4 more for every 30 bits. *)
Definition rt0 : runtime :=
  Runtime (fun _ _ v => v) (fun _ => Raise TypeError)
    (fun _ _ => Raise TypeError) (fun _ _ => Raise TypeError)
    (fun _ v => match v with
                | VInt z => 28 + 4 * (Z.log2 (Z.abs z) / 30)
                | _ => 64
                end)
    (fun i => - Z.of_nat i - 1).

(** A transport in which the pickle of an [int] takes a byte for every 8
    bits, a string a byte for every character, an array 8 bytes for every
    element, and every object 2 bytes more, and in which a typed gather
    whose send buffers do not fit fails on the root. *)
Fixpoint bytes (m : Transport.pickled) : Z :=
  2 + match m with
      | Transport.PInt z => Z.log2 (Z.abs z) / 8 + 1
      | Transport.PStr s => Z.of_nat (String.length s)
      | Transport.PSeq _ items => foldr (fun x n => bytes x + n) 0 items
      | Transport.PArr a => 8 * Z.of_nat (length (data a))
      | _ => 0
      end.

Definition tr0 : Transport.transport :=
  Transport.MkTransport bytes (fun _ _ => Raise SystemError).

(** An [int] of [2 ^ 35] bits. *)
Definition huge : Z := 2 ^ (2 ^ 35).

(** One array of two elements, the only object of its store. *)
Definition h0 : store := [NDArray [2%nat] Float64 [1; 2]].

(** Three processes; the second holds a 2 x 3 array. *)
Definition a23 : ndarray := NDArray [2%nat; 3%nat] Int64 [1; 2; 3; 4; 5; 6].

Definition inputs3 : list (pyval * store) :=
  [(VNone, []); (VArr 0%nat, [a23]); (VInt 5, h0)].

(** Two processes; the first holds an array with no element, the second
    is the root. *)
Definition empty1 : ndarray := NDArray [0%nat] Float64 [].
Definition full2 : ndarray := NDArray [2%nat] Float64 [1; 2].

Definition inputs_empty : list (pyval * store) :=
  [(VArr 0%nat, [empty1]); (VArr 0%nat, [full2])].

(** Three processes with arrays of 2, 5 and 3 elements. *)
Definition arrays253 : list ndarray :=
  [NDArray [2%nat] Float64 [1; 2];
   NDArray [5%nat] Float64 [3; 4; 5; 6; 7];
   NDArray [3%nat] Float64 [8; 9; 10]].

Definition inputs253 : list (pyval * store) :=
  (fun a => (VArr 0%nat, [a])) <$> arrays253.

(** Two processes; the first holds an array with no element, the second
    is the root and holds an array of two dimensions. *)
Definition inputs_empty_ragged : list (pyval * store) :=
  [(VArr 0%nat, [empty1]);
   (VArr 0%nat, [NDArray [1%nat; 3%nat] Float64 [1; 2; 3]])].

(** Two processes with arrays of different numbers of dimensions. *)
Definition inputs_ragged : list (pyval * store) :=
  [(VArr 0%nat, [NDArray [1%nat; 3%nat] Float64 [1; 2; 3]]);
   (VArr 0%nat, [full2])].

(** Processes that hold an array of no dimension. *)
Definition scalar5 : ndarray := NDArray [] Float64 [5].

Definition inputs_scalar1 : list (pyval * store) :=
  [(VArr 0%nat, [scalar5])].

Definition inputs_scalar2 : list (pyval * store) :=
  [(VArr 0%nat, [scalar5]); (VArr 0%nat, [scalar5])].

(** Two processes; the first holds the large [int]. *)
Definition inputs_huge : list (pyval * store) :=
  [(VInt huge, []); (VNone, [])].



End Examples.

(** ** Construction of the dummy communicators *)

Module dummyMPIObject.
Import dummyMPI.

(** The setter of the property [name]: a [str] is stored in [_name],
    anything else is a [TypeError]. *)
Definition name_setter (c : Comm) (name : pyval) : result Comm :=
  match name with
  | VStr s => Ok (MkComm s (_rank c) (_size c))
  | _ => Raise TypeError
  end.

(** [Comm.__init__] on an object of class [classname] whose [_name] is
    [_name0] ([None] when the attribute is not there yet). *)
Definition Comm_init (_name0 : option string) (classname : string) : Comm :=
  MkComm
    match _name0 with
    | None => "dummyMPI_" +:+ classname
    | Some n => if String.prefix "dummyMPI_" n then n else "dummyMPI_" +:+ n
    end 0 1.

(** [Comm()]. *)
Definition Comm_new : Comm := Comm_init None "Comm".

(** [Intracomm(name)]: the name goes through the setter first. *)
Definition Intracomm_new (name : pyval) : result Comm :=
  match name with
  | VStr s => Ok (Comm_init (Some s) "Intracomm")
  | _ => Raise TypeError
  end.

End dummyMPIObject.

(** ** Groups that gather *)

Module GatherGroups.
Import Transport BufferComm.

(** [isinstance(obj, np.ndarray)]. *)
Definition is_array (v : pyval) : bool :=
  match v with VArr _ => true | _ => false end.

(** A process whose argument is not an array and is pickled as [m]. *)
Definition holds_object (x : pyval * store) (m : pickled) : Prop :=
  is_array x.1 = false /\ pickle x.2 x.1 = Some m.

(** What a process puts on the wire in the first collective of [gather]:
    the pickle of the shape of its array, or of its argument when that is
    not an array. *)
Definition first_message (x : pyval * store) (m : pickled) : Prop :=
  match x.1 with
  | VArr l => exists a, x.2 !! l = Some a /\ m = shape_pickle (shape a)
  | _ => pickle x.2 x.1 = Some m
  end.

(** The group after the first collective of [gather], in which the
    messages [msgs] were gathered: a process whose argument is not an
    array returns what it got, a process with an array goes on with the
    typed gather. *)
Definition first_gathered (rt : runtime) (root n : nat) (msgs : list pickled)
  (i : nat) (x : pyval * store) : proc :=
  let '(v, h) := if decide (i = root)
                 then unpickle (PSeq KList msgs) x.2
                 else (VNone, x.2) in
  match x.1 with
  | VArr l =>
      match x.2 !! l with
      | Some a => gather_shaped rt i n a l root v h
      | None => Throw ValueError h
      end
  | _ => Return v h
  end.

(** A gather of objects that are not arrays in which the size failure
    arises: the group after the root has failed on its own message, the
    others being still at their call, *)
Definition root_failed (rt : runtime) (root n : nat)
  (i : nat) (x : pyval * store) : proc :=
  if decide (i = root) then Throw (InputError too_large_message []) x.2
  else gather rt i n x.1 root x.2.

(** and the group after the collective in which the root has found the
    message of another process too large. *)
Definition gather_failed (root : nat) (i : nat) (x : pyval * store) : proc :=
  if decide (i = root) then Throw (InputError too_large_message []) x.2
  else Return VNone x.2.

End GatherGroups.

(** ** Making a wrapper ([BufferComm.__init__]) *)

Module AttributesInit.
Import Attributes.

Section wrapper.
Context {C W : Type} `{PyObject C} `{PyObject W}.

(** [hasattr(self, name)] on the wrapper: the attribute is read with the
    wrapper's [__getattribute__]; [AttributeError] means no, any other
    exception goes on. *)
Definition hasattr (comm : C) (self : W) (name : string) : result bool :=
  match __getattribute__ comm self name with
  | Ok _ => Ok true
  | Raise AttributeError => Ok false
  | Raise e => Raise e
  end.

(** [BufferComm.__init__]; [Get_rank] and [Get_size] are the values of
    [comm.Get_rank()] and [comm.Get_size()], and the assignments go
    through the wrapper's [__setattr__]. *)
Definition __init__ (Get_rank Get_size : pyval) (comm : C) (self : W)
  : result (C * W) :=
  h ← hasattr comm self "_rank";
  '(comm, self) ← (if negb h
                   then __setattr__ comm self "_rank" (Plain Get_rank)
                   else Ok (comm, self));
  h ← hasattr comm self "_size";
  if negb h then __setattr__ comm self "_size" (Plain Get_size)
  else Ok (comm, self).

End wrapper.

End AttributesInit.

(** ** Uses of the factory *)

Module RegistryInit.
Import Registry.

(** The two calls at the end of the module, which make the default
    instances [BUFFER_COMM_SELF] and [BUFFER_COMM_WORLD]. *)
Definition default_instances (COMM_SELF : N) (st : state)
  : result N * result N * state :=
  let '(BUFFER_COMM_SELF, st) := get_BufferComm_obj (Some COMM_SELF) st in
  let '(BUFFER_COMM_WORLD, st) :=
    get_BufferComm_obj (Some (COMM_WORLD st)) st in
  (BUFFER_COMM_SELF, BUFFER_COMM_WORLD, st).

(** The state after one call of the factory for every argument of a
    list. *)
Definition calls (args : list (option N)) (st : state) : state :=
  foldl (fun st comm => (get_BufferComm_obj comm st).2) st args.

(** A well-formed registry in a process whose [MPI.COMM_WORLD] is an
    intra-communicator. *)
Definition state_ok (st : state) : Prop :=
  registry_ok st /\ is_intracomm (class_of st (COMM_WORLD st)) = true.

End RegistryInit.

(** * Properties *)

(** ** Values and stores *)

Module StoreFacts.
Import Transport.

(** Induction on values, with the items of a sequence covered. *)
Lemma pyval_nested_ind (P : pyval -> Prop) :
  P VNone -> (forall z, P (VInt z)) -> (forall s, P (VStr s)) ->
  (forall d, P (VDtype d)) ->
  (forall k items, Forall P items -> P (VSeq k items)) ->
  (forall l, P (VArr l)) ->
  forall v, P v.
Proof.
  intros HN HI HS HD HQ HA. fix IH 1.
  intros [| | | |k items|];
    [apply HN | apply HI | apply HS | apply HD | | apply HA].
  apply HQ. induction items as [|x xs IHxs]; constructor;
    [apply IH | exact IHxs].
Qed.

Lemma pickled_nested_ind (P : pickled -> Prop) :
  P PNone -> (forall z, P (PInt z)) -> (forall s, P (PStr s)) ->
  (forall d, P (PDtype d)) ->
  (forall k items, Forall P items -> P (PSeq k items)) ->
  (forall a, P (PArr a)) ->
  forall m, P m.
Proof.
  intros HN HI HS HD HQ HA. fix IH 1.
  intros [| | | |k items|];
    [apply HN | apply HI | apply HS | apply HD | | apply HA].
  apply HQ. induction items as [|x xs IHxs]; constructor;
    [apply IH | exact IHxs].
Qed.

(** The pickle of a value reads only the objects the value reaches: it
    is the same in every store that extends the one it was taken in. *)
Lemma pickle_app (ext : store) (v : pyval) :
  forall h m, pickle h v = Some m -> pickle (h ++ ext) v = Some m.
Proof.
  induction v as [| | | |k items IH|l] using pyval_nested_ind;
    intros h m Hp; simpl in *; try done.
  - destruct (mapM (pickle h) items) as [ms|] eqn:Hm; [|done].
    simpl in Hp. injection Hp as <-.
    assert (mapM (pickle (h ++ ext)) items = Some ms) as ->; [|done].
    revert ms Hm. induction IH as [|x xs Hx _ IHxs]; intros ms Hm.
    + done.
    + simpl in *. destruct (pickle h x) as [mx|] eqn:Hx'; [|done].
      simpl in Hm. destruct (mapM (pickle h) xs) as [mxs|]; [|done].
      simpl in Hm. injection Hm as <-.
      by rewrite (Hx _ _ Hx'), (IHxs _ eq_refl).
  - destruct (h !! l) as [a|] eqn:Hl; [|done].
    by rewrite (lookup_app_l_Some _ _ _ _ Hl).
Qed.

(** *** Rows and broadcasting *)

Lemma chunks_length (n sz : nat) (d : list Z) :
  length (chunks n sz d) = n.
Proof. revert d. induction n as [|n IH]; intros d; simpl; [done|]. by rewrite IH. Qed.

Lemma chunks_rows (n sz : nat) (d : list Z) :
  length d = (n * sz)%nat ->
  Forall (fun c => length c = sz) (chunks n sz d).
Proof.
  revert d. induction n as [|n IH]; intros d Hd; simpl; constructor.
  - rewrite length_take. lia.
  - apply IH. rewrite length_drop. lia.
Qed.

Lemma chunks_concat (n sz : nat) (d : list Z) :
  length d = (n * sz)%nat -> concat (chunks n sz d) = d.
Proof.
  revert d. induction n as [|n IH]; intros d Hd; simpl.
  - by destruct d.
  - rewrite IH by (rewrite length_drop; lia). apply take_drop.
Qed.

Lemma chunks_of_concat (sz : nat) (blocks : list (list Z)) :
  Forall (fun b => length b = sz) blocks ->
  chunks (length blocks) sz (concat blocks) = blocks.
Proof.
  induction 1 as [|b blocks Hb _ IH]; simpl; [done|].
  rewrite take_app_length' by done. rewrite drop_app_length' by done.
  by rewrite IH.
Qed.

Lemma mapM_id {A : Type} (f : A -> option A) (l : list A) :
  Forall (fun x => f x = Some x) l -> mapM f l = Some l.
Proof.
  intros Hall. apply mapM_Some. induction Hall; by constructor.
Qed.

(** An array broadcast to its own shape is itself. *)
Lemma broadcast_data_same (s : list nat) :
  forall d, length d = product s -> broadcast_data s s d = Some d.
Proof.
  induction s as [|n s IH]; intros d Hd; simpl; [done|].
  rewrite decide_True by done.
  rewrite (mapM_id (broadcast_data s s)).
  - simpl. by rewrite chunks_concat.
  - eapply Forall_impl; [by apply chunks_rows|]. intros c Hc. by apply IH.
Qed.

Lemma align_shape_same (s : list nat) : align_shape (length s) s = Some s.
Proof.
  unfold align_shape. rewrite decide_True by done.
  by rewrite Nat.sub_diag.
Qed.

(** [dst[:] = src] between arrays of one shape: the elements of [src],
    converted to the element type of [dst]. *)
Lemma setitem_all_same (rt : runtime) (dst src : ndarray) :
  shape dst <> [] -> shape src = shape dst -> wf_array src ->
  setitem_all rt dst (Ok src) =
    Ok (NDArray (shape dst) (dtype_of dst)
          (map (astype rt (dtype_of src) (dtype_of dst)) (data src))).
Proof.
  intros Hne Hs Hwf. unfold setitem_all. rewrite decide_False by done.
  cbn [mbind result_bind].
  rewrite <- Hs, align_shape_same, broadcast_data_same; done.
Qed.

End StoreFacts.

(** ** The registry *)

Module RegistryFacts.
Import Registry.

Lemma hex_inj (a b : N) : hex a = hex b -> a = b.
Proof.
  unfold hex. intros E.
  rewrite <- (HexString.to_N_of_N a), <- (HexString.to_N_of_N b).
  by rewrite E.
Qed.

Lemma is_value_spec (st : state) (o : N) :
  is_value st o = true <-> exists k, buffer_comm_registry st !! k = Some o.
Proof.
  unfold is_value. rewrite bool_decide_eq_true, list_elem_of_fmap. split.
  - intros [[k w] [-> Hin]]. exists k. by apply elem_of_map_to_list in Hin.
  - intros [k Hk]. exists (k, o). split; [done|].
    by apply elem_of_map_to_list.
Qed.

Lemma fresh_object (st : state) : objects st !! fresh (dom (objects st)) = None.
Proof. apply not_elem_of_dom, is_fresh. Qed.

(** The factory keeps the registry well formed. *)
Lemma wrap_ok (comm : N) (st : state) :
  registry_ok st -> is_Some (objects st !! comm) ->
  is_intracomm (class_of st comm) = true ->
  registry_ok (wrap comm st).2.
Proof.
  intros (Hent & Hkey & Hworld) Hlive Hcls. unfold wrap.
  destruct (buffer_comm_registry st !! hex comm) as [w|] eqn:Hreg; [done|].
  destruct (is_value st comm) eqn:Hval; [done|].
  assert (Hnv : forall k, buffer_comm_registry st !! k <> Some comm).
  { intros k Hk. assert (is_value st comm = true) by (apply is_value_spec; eauto).
    congruence. }
  pose proof (fresh_object st) as Hfresh.
  set (w := fresh (dom (objects st))) in *.
  assert (Hwc : w <> comm) by (intros ->; destruct Hlive; congruence).
  repeat split; simpl.
  - intros k v Hk. destruct (decide (k = hex comm)) as [->|Hne].
    + rewrite lookup_insert_eq in Hk. injection Hk as <-.
      exists comm, (class_of st comm). repeat split; [| |done].
      * rewrite lookup_insert_ne by done. done.
      * by rewrite lookup_insert_eq.
    + rewrite lookup_insert_ne in Hk by done.
      destruct (Hent k v Hk) as (c & base & -> & Hc & Hv & Hb).
      exists c, base. repeat split; [| |done].
      * rewrite lookup_insert_ne; [done|]. intros <-. destruct Hc; congruence.
      * rewrite lookup_insert_ne; [done|]. intros <-. congruence.
  - intros k v Hk. destruct (decide (k = hex comm)) as [->|Hne].
    + rewrite lookup_insert_eq in Hk. injection Hk as <-.
      rewrite lookup_insert_ne by (intros E; apply hex_inj in E; done).
      destruct (buffer_comm_registry st !! hex w) as [v|] eqn:Hw; [|done].
      destruct (Hent _ _ Hw) as (c & base & E & Hc & _).
      apply hex_inj in E as <-. destruct Hc; congruence.
    + rewrite lookup_insert_ne in Hk by done.
      rewrite lookup_insert_ne.
      * by eapply Hkey.
      * intros E. apply hex_inj in E as <-. by apply (Hnv k).
  - rewrite lookup_insert_ne; [done|]. intros E.
    destruct Hworld as [x Hx]. rewrite <- E in Hx. congruence.
Qed.

Lemma intracomm_live (st : state) (o : N) :
  is_intracomm (class_of st o) = true -> is_Some (objects st !! o).
Proof.
  unfold class_of. destruct (objects st !! o); [eauto | done].
Qed.

(** A wrapper given back to the factory is returned as it is. *)
Lemma wrapper_returned (st : state) (v : N) :
  registry_ok st -> is_value st v = true ->
  get_BufferComm_obj (Some v) st = (Ok v, st).
Proof.
  intros (Hent & Hkey & _) Hval.
  pose proof Hval as Hv. apply is_value_spec in Hv as [k Hk].
  destruct (Hent k v Hk) as (c & base & _ & _ & Hobj & Hbase).
  unfold get_BufferComm_obj, class_of. rewrite Hobj. simpl. rewrite Hbase.
  unfold wrap. by rewrite (Hkey k v Hk), Hval.
Qed.

(** Two entries that wrap the same communicator are one entry. *)
Lemma wrapped_once (st : state) k1 k2 w1 w2 b1 b2 c :
  registry_ok st ->
  buffer_comm_registry st !! k1 = Some w1 ->
  buffer_comm_registry st !! k2 = Some w2 ->
  objects st !! w1 = Some (BufferComm b1 c) ->
  objects st !! w2 = Some (BufferComm b2 c) ->
  k1 = k2 /\ w1 = w2.
Proof.
  intros (Hent & _ & _) H1 H2 O1 O2.
  destruct (Hent _ _ H1) as (c1 & ? & -> & _ & O1' & _).
  destruct (Hent _ _ H2) as (c2 & ? & -> & _ & O2' & _).
  assert (c1 = c) by congruence. assert (c2 = c) by congruence. subst.
  split; [done | congruence].
Qed.

(** C6: on a well-formed registry, the factory applied twice to the same
    intra-communicator returns the same wrapper both times; unless the
    argument is itself a registered wrapper, the second call finds it in the
    registry under the identity of the communicator; a registered wrapper
    given to the factory is returned unchanged (and the registry with it);
    and no two entries of the registry wrap the same communicator. *)
Theorem get_BufferComm_obj_idempotent (st : state) (h : N) :
  registry_ok st -> is_intracomm (class_of st h) = true ->
  exists w st1,
    get_BufferComm_obj (Some h) st = (Ok w, st1) /\
    get_BufferComm_obj (Some h) st1 = (Ok w, st1) /\
    (is_value st h = false ->
       buffer_comm_registry st1 !! hex h = Some w) /\
    (is_value st h = true -> w = h /\ st1 = st) /\
    (forall v, is_value st1 v = true ->
       get_BufferComm_obj (Some v) st1 = (Ok v, st1)) /\
    registry_ok st1 /\
    (forall k1 k2 w1 w2 b1 b2 c,
       buffer_comm_registry st1 !! k1 = Some w1 ->
       buffer_comm_registry st1 !! k2 = Some w2 ->
       objects st1 !! w1 = Some (BufferComm b1 c) ->
       objects st1 !! w2 = Some (BufferComm b2 c) ->
       k1 = k2 /\ w1 = w2).
Proof.
  intros Hok Hcls.
  pose proof (wrap_ok h st Hok (intracomm_live _ _ Hcls) Hcls) as Hok1.
  exists (match (wrap h st).1 with Ok w => w | Raise _ => h end), (wrap h st).2.
  assert (Hfirst : get_BufferComm_obj (Some h) st =
            (Ok (match (wrap h st).1 with Ok w => w | Raise _ => h end),
             (wrap h st).2)).
  { unfold get_BufferComm_obj. rewrite Hcls. unfold wrap.
    destruct (buffer_comm_registry st !! hex h); [done|].
    by destruct (is_value st h). }
  split; [done|].
  assert (Hcase :
    (is_value st h = true -> buffer_comm_registry st !! hex h = None)).
  { intros Hv. apply is_value_spec in Hv as [k Hk].
    destruct Hok as (_ & Hkey & _). by eapply Hkey. }
  split_and!.
  - (* the second call *)
    revert Hok1. unfold get_BufferComm_obj, wrap.
    destruct (buffer_comm_registry st !! hex h) as [w|] eqn:Hreg.
    + simpl. by rewrite Hcls, Hreg.
    + destruct (is_value st h) eqn:Hval.
      * simpl. by rewrite Hcls, Hreg, Hval.
      * simpl. intros _. unfold class_of at 1. simpl.
        rewrite lookup_insert_ne.
        2:{ intros E. pose proof (fresh_object st) as Hf. rewrite E in Hf.
            destruct (intracomm_live _ _ Hcls). congruence. }
        fold (class_of st h). rewrite Hcls. by rewrite lookup_insert_eq.
  - intros Hval. unfold wrap.
    destruct (buffer_comm_registry st !! hex h) as [w|] eqn:Hreg; [done|].
    rewrite Hval. simpl. by rewrite lookup_insert_eq.
  - intros Hval. unfold wrap. rewrite (Hcase Hval), Hval. by destruct st.
  - intros v Hv. by apply wrapper_returned.
  - done.
  - intros. eapply wrapped_once; eauto.
Qed.

(** C7: [None] stands for [MPI.COMM_WORLD]; an argument that is neither
    [None] nor an intra-communicator of [mpi4py] or of the dummy layer gets
    [TypeError], and then no wrapper is made and the registry stays as it
    is. *)
Theorem get_BufferComm_obj_argument (st : state) :
  get_BufferComm_obj None st = wrap (COMM_WORLD st) st /\
  (is_intracomm (class_of st (COMM_WORLD st)) = true ->
   get_BufferComm_obj None st = get_BufferComm_obj (Some (COMM_WORLD st)) st) /\
  (forall comm, is_intracomm (class_of st comm) = false ->
     get_BufferComm_obj (Some comm) st = (Raise TypeError, st)).
Proof.
  unfold get_BufferComm_obj. repeat split.
  - by intros ->.
  - by intros comm ->.
Qed.

Lemma registry_ok_empty (objs : gmap N pyclass) (world : N) :
  is_Some (objs !! world) -> registry_ok (MkState objs ∅ world).
Proof.
  intros Hw. split_and!; [| |done]; intros k w Hk; simpl in Hk;
    by rewrite lookup_empty in Hk.
Qed.

Lemma get_BufferComm_obj_idempotent_witness :
  registry_ok Examples.st0 /\
  is_intracomm (class_of Examples.st0 1%N) = true /\
  exists w st1,
    get_BufferComm_obj (Some 1%N) Examples.st0 = (Ok w, st1) /\
    get_BufferComm_obj (Some 1%N) st1 = (Ok w, st1).
Proof.
  assert (H0 : registry_ok Examples.st0) by (by apply registry_ok_empty).
  assert (H1 : is_intracomm (class_of Examples.st0 1%N) = true)
    by reflexivity.
  split_and!; [done | done |].
  destruct (get_BufferComm_obj_idempotent Examples.st0 1%N H0 H1)
    as (w & st1 & Ha & Hb & _).
  by exists w, st1.
Defined.

Lemma get_BufferComm_obj_argument_witness :
  is_intracomm (class_of Examples.st0 7%N) = false /\
  get_BufferComm_obj (Some 7%N) Examples.st0 = (Raise TypeError, Examples.st0).
Proof.
  split; [reflexivity|].
  apply (get_BufferComm_obj_argument Examples.st0). reflexivity.
Defined.

End RegistryFacts.

(** ** Attribute access through the wrapper *)

Module AttributesFacts.
Import Attributes.

Section wrapper.
Context {C W : Type} `{PyObject C} `{PyObject W}.

Lemma forwarded_data (comm : C) (name : string) (a : pyattr) :
  name ∈ py_dir comm -> py_getattr comm name = Ok a ->
  forwarded comm name = Ok (negb (is_method a)).
Proof.
  intros Hdir Hget. unfold forwarded.
  by rewrite bool_decide_eq_true_2, Hget.
Qed.

Lemma forwarded_absent (comm : C) (name : string) :
  name ∉ py_dir comm -> forwarded comm name = Ok false.
Proof. intros Hdir. unfold forwarded. by rewrite bool_decide_eq_false_2. Qed.

(** C8: for a name that the wrapped communicator lists and whose value
    there is not a method, reading, writing and deleting through the
    wrapper are the read, write and deletion on the wrapped communicator,
    and the wrapper object itself is left as it was; for a name that the
    communicator does not list, or whose value there is a method, they are
    the wrapper object's own and the communicator is left as it was. *)
Theorem attribute_delegation (comm : C) (self : W) (name : string) :
  (forall a, name ∈ py_dir comm -> py_getattr comm name = Ok a ->
     is_method a = false ->
     __getattribute__ comm self name = Ok a /\
     (forall value, __setattr__ comm self name value =
        (fun c => (c, self)) <$> py_setattr comm name value) /\
     __delattr__ comm self name =
        (fun c => (c, self)) <$> py_delattr comm name) /\
  ((name ∉ py_dir comm \/
    exists a, py_getattr comm name = Ok a /\ is_method a = true) ->
     __getattribute__ comm self name = py_getattr self name /\
     (forall value, __setattr__ comm self name value =
        (fun w => (comm, w)) <$> py_setattr self name value) /\
     __delattr__ comm self name =
        (fun w => (comm, w)) <$> py_delattr self name).
Proof.
  split.
  - intros a Hdir Hget Hm.
    unfold __getattribute__, __setattr__, __delattr__.
    rewrite (forwarded_data _ _ _ Hdir Hget), Hm. simpl. by rewrite Hget.
  - intros Hother.
    assert (Hf : forwarded comm name = Ok false).
    { destruct Hother as [Hdir | (a & Hget & Hm)].
      - by apply forwarded_absent.
      - destruct (decide (name ∈ py_dir comm)) as [Hdir|Hdir].
        + by rewrite (forwarded_data _ _ _ Hdir Hget), Hm.
        + by apply forwarded_absent. }
    unfold __getattribute__, __setattr__, __delattr__. by rewrite Hf.
Qed.

End wrapper.

Lemma attribute_delegation_witness :
  "name" ∈ py_dir Examples.comm0 /\
  py_getattr Examples.comm0 "name"
    = Ok (Plain (VStr "dummyMPI_COMM_WORLD")) /\
  is_method (Plain (VStr "dummyMPI_COMM_WORLD")) = false /\
  __getattribute__ Examples.comm0 Examples.self0 "name"
    = Ok (Plain (VStr "dummyMPI_COMM_WORLD")) /\
  (exists a, py_getattr Examples.comm0 "bcast" = Ok a /\ is_method a = true) /\
  __getattribute__ Examples.comm0 Examples.self0 "bcast"
    = Ok (BoundMethod "BufferComm.bcast").
Proof.
  assert (H1 : "name" ∈ py_dir Examples.comm0)
    by (apply (bool_decide_unpack _); vm_compute; exact I).
  assert (H2 : py_getattr Examples.comm0 "name"
                = Ok (Plain (VStr "dummyMPI_COMM_WORLD"))) by reflexivity.
  assert (H3 : exists a, py_getattr Examples.comm0 "bcast" = Ok a
                         /\ is_method a = true).
  { exists (BoundMethod "Comm.bcast"). split; reflexivity. }
  split_and!; [done | done | reflexivity | | done |].
  - apply (attribute_delegation Examples.comm0 Examples.self0 "name");
      [done | done | reflexivity].
  - etransitivity.
    + apply (attribute_delegation Examples.comm0 Examples.self0 "bcast").
      right. exact H3.
    + reflexivity.
Defined.

End AttributesFacts.

(** ** The dummy MPI layer *)

Module dummyMPIFacts.
Import dummyMPI.
Import Transport(pickle, pickled, PArr, PSeq).







(** C9: on the dummy communicator, which has one process of rank 0,
    [bcast] and [Bcast] return their argument, [gather] returns the list
    of its one argument, and [scatter] returns the first item of a
    sequence. *)
Theorem single_process_collectives (rt : runtime) (name : string)
  (v x : pyval) (k : seqkind) (rest : list pyval) (h : store) :
  Get_size (Intracomm name) = 1%nat /\
  Get_rank (Intracomm name) = 0%nat /\
  bcast v = v /\
  Bcast v = v /\
  gather v = VSeq KList [v] /\
  scatter rt (VSeq k (x :: rest)) h = Ok (x, h).
Proof. by split_and!. Qed.

End dummyMPIFacts.

(** ** Shapes *)

Module ShapeFacts.

Lemma product_le (s t : list nat) :
  Forall2 le s t -> (product s <= product t)%nat.
Proof.
  induction 1 as [|x y s t Hxy _ IH]; simpl; [done|].
  by apply Nat.mul_le_mono.
Qed.

Lemma zip_max_ge (s t : list nat) :
  length s = length t ->
  Forall2 le s (zip_with Nat.max s t) /\ Forall2 le t (zip_with Nat.max s t).
Proof.
  revert t. induction s as [|x s IH]; intros [|y t] Hlen; try done.
  simpl in *. destruct (IH t) as [H1 H2]; [lia|].
  split; constructor; (lia || done).
Qed.

(** The maximum along every axis bounds every shape it was taken over. *)
Lemma max_axis0_ge (d : nat) (s0 : list nat) (rest : list (list nat)) :
  length s0 = d -> Forall (fun t => length t = d) rest ->
  length (foldl (zip_with Nat.max) s0 rest) = d /\
  Forall2 le s0 (foldl (zip_with Nat.max) s0 rest) /\
  Forall (fun t => Forall2 le t (foldl (zip_with Nat.max) s0 rest)) rest.
Proof.
  intros Hs0 Hrest. revert s0 Hs0.
  induction Hrest as [|t rest Ht _ IH]; intros s0 Hs0; simpl.
  - split_and!; [done | | done].
    apply Forall2_same_length_lookup_2; [done|]. intros i x y Hx Hy.
    assert (x = y) by congruence. lia.
  - destruct (zip_max_ge s0 t) as [H1 H2]; [lia|].
    destruct (IH (zip_with Nat.max s0 t)) as (L & M0 & Mr).
    { rewrite length_zip_with. lia. }
    split_and!; [done | | constructor; [|done]].
    + eapply Forall2_trans; [|exact H1|exact M0]. intros; lia.
    + eapply Forall2_trans; [|exact H2|exact M0]. intros; lia.
Qed.

Lemma np_max_axis0_same (d : nat) (shapes : list (list nat)) :
  shapes <> [] -> Forall (fun t => length t = d) shapes ->
  exists m, np_max_axis0 shapes = Ok m /\ length m = d /\
            Forall (fun t => (product t <= product m)%nat) shapes.
Proof.
  intros Hne Hall. destruct shapes as [|s0 rest]; [done|].
  apply Forall_cons in Hall as [Hs0 Hrest].
  destruct (max_axis0_ge d s0 rest Hs0 Hrest) as (L & M0 & Mr).
  exists (foldl (zip_with Nat.max) s0 rest). split_and!; [|done|].
  - unfold np_max_axis0.
    assert (forallb (fun t => length t =? length s0)%nat rest = true) as ->;
      [|done].
    apply Is_true_true_1, forallb_True. eapply Forall_impl; [exact Hrest|].
    intros t Ht. apply Is_true_true_2, Nat.eqb_eq. simpl in Ht. lia.
  - constructor; [by apply product_le|].
    eapply Forall_impl; [exact Mr|]. intros t Ht. by apply product_le.
Qed.

Lemma np_product_int (s : list nat) :
  s <> [] -> np_product s = NpInt (product s).
Proof. by destruct s. Qed.

(** A shape with an empty dimension holds no element. *)
Lemma np_all_false_product (s : list nat) :
  np_all s = false -> product s = 0%nat.
Proof.
  induction s as [|x s IH]; [done|]. simpl.
  destruct x as [|x]; simpl; [done|]. intros H. rewrite IH by done. lia.
Qed.

(** Of two shapes that differ along one axis only, the maximum along
    every axis is one of the two. *)
Lemma zip_max_pick (k : nat) (s t : list nat) :
  length s = length t -> (forall j, j <> k -> s !! j = t !! j) ->
  zip_with Nat.max s t = s \/ zip_with Nat.max s t = t.
Proof.
  revert k t. induction s as [|x s IH]; intros k [|y t] Hlen Hsame;
    try done; [by left|].
  simpl in Hlen. destruct k as [|k].
  - assert (s = t) as <-.
    { apply list_eq. intros j. by apply (Hsame (S j)). }
    assert (zip_with Nat.max s s = s) as Hs.
    { clear. induction s as [|z s IH]; simpl; [done|].
      by rewrite IH, Nat.max_id. }
    simpl. rewrite Hs.
    destruct (Nat.max_spec x y) as [[_ ->]|[_ ->]]; [by right | by left].
  - assert (x = y) as <-.
    { specialize (Hsame 0%nat). simpl in Hsame.
      assert (Some x = Some y) by (by apply Hsame). congruence. }
    simpl. rewrite Nat.max_id.
    destruct (IH k t) as [->| ->]; [lia | | by left | by right].
    intros j Hj. apply (Hsame (S j)). lia.
Qed.

Lemma max_axis0_pick (k d : nat) (s0 : list nat) (rest : list (list nat)) :
  Forall (fun t => length t = d) (s0 :: rest) ->
  BufferComm.one_axis_differs k (s0 :: rest) ->
  foldl (zip_with Nat.max) s0 rest ∈ s0 :: rest.
Proof.
  revert s0. induction rest as [|t rest IH]; intros s0 Hlen Hone; simpl.
  - by left.
  - apply Forall_cons in Hlen as [Hs0 Hlen].
    apply Forall_cons in Hlen as [Ht Hlen].
    assert (Hst : forall j, j <> k -> s0 !! j = t !! j).
    { intros j Hj. apply Hone; [by left | by right; left | done]. }
    destruct (zip_max_pick k s0 t) as [->| ->]; [lia | done | |].
    + assert (Hin : foldl (zip_with Nat.max) s0 rest ∈ s0 :: rest).
      { apply IH; [by constructor|].
        intros s u j Hs Hu Hj. apply Hone; [| |done].
        - apply elem_of_cons in Hs as [->|Hs]; [by left|by right; right].
        - apply elem_of_cons in Hu as [->|Hu]; [by left|by right; right]. }
      apply elem_of_cons in Hin as [->|Hin]; [by left | by right; right].
    + right. apply IH; [by constructor|].
      intros s u j Hs Hu Hj. apply Hone; [by right | by right | done].
Qed.

(** Under the gather invariant a row of the root's buffer holds as many
    elements as the largest of the gathered arrays. *)
Lemma row_capacity_max_count (k d : nat) (shapes : list (list nat)) :
  shapes <> [] -> Forall (fun t => length t = d) shapes ->
  BufferComm.one_axis_differs k shapes ->
  BufferComm.row_capacity shapes = max_list (product <$> shapes).
Proof.
  intros Hne Hlen Hone.
  destruct (np_max_axis0_same d shapes Hne Hlen) as (m & Hm & _ & Hle).
  unfold BufferComm.row_capacity. rewrite Hm.
  destruct shapes as [|s0 rest]; [done|].
  assert (m = foldl (zip_with Nat.max) s0 rest) as Hmdef.
  { unfold np_max_axis0 in Hm.
    destruct (forallb _ rest); [by injection Hm as <- | done]. }
  apply Nat.le_antisymm.
  - apply max_list_elem_of_le, list_elem_of_fmap.
    exists m. split; [done|]. rewrite Hmdef. by eapply max_axis0_pick.
  - assert (Hall : Forall (fun n => (n <= product m)%nat)
                     (product <$> s0 :: rest)) by (by apply Forall_fmap).
    revert Hall. generalize (product <$> s0 :: rest). clear.
    intros ns Hall. induction Hall as [|n ns Hn _ IH]; simpl; lia.
Qed.

End ShapeFacts.

(** ** The transport *)

Module TransportFacts.
Import Transport.

Lemma to_shape_shape_val (s : list nat) : to_shape (shape_val s) = Some s.
Proof.
  unfold to_shape, shape_val. apply mapM_Some.
  induction s as [|n s IH]; constructor; [|done].
  simpl. rewrite decide_True by lia. by rewrite Nat2Z.id.
Qed.

Lemma pickle_seq (h : store) (k : seqkind) (items : list pyval) :
  pickle h (VSeq k items) = PSeq k <$> mapM (pickle h) items.
Proof. done. Qed.

Lemma unpickle_seq (h : store) (k : seqkind) (items : list pickled) :
  unpickle (PSeq k items) h =
    let '(vs, h') := thread unpickle items h in (VSeq k vs, h').
Proof. done. Qed.

Lemma pickle_shape_val (h : store) (s : list nat) :
  pickle h (shape_val s) = Some (BufferComm.shape_pickle s).
Proof.
  unfold shape_val, BufferComm.shape_pickle. rewrite pickle_seq.
  assert (mapM (pickle h) (map (fun n => VInt (Z.of_nat n)) s)
          = Some ((fun n => PInt (Z.of_nat n)) <$> s)) as ->; [|done].
  apply mapM_Some. induction s as [|n s IH]; by constructor.
Qed.

Lemma thread_unpickle_dims (h : store) (s : list nat) :
  thread unpickle ((fun n => PInt (Z.of_nat n)) <$> s) h
    = (map (fun n => VInt (Z.of_nat n)) s, h).
Proof. induction s as [|n s IH]; [done|]. csimpl. by rewrite IH. Qed.

Lemma unpickle_shape (h : store) (s : list nat) :
  unpickle (BufferComm.shape_pickle s) h = (shape_val s, h).
Proof.
  unfold shape_val, BufferComm.shape_pickle. rewrite unpickle_seq.
  by rewrite thread_unpickle_dims.
Qed.

(** Unpickling allocates after the store it is given, and what it builds
    pickles back to the message. *)
Lemma unpickle_spec (m : pickled) :
  forall h, exists new,
    (unpickle m h).2 = h ++ new /\
    pickle (h ++ new) (unpickle m h).1 = Some m.
Proof.
  induction m as [| | | |k items IH|a] using StoreFacts.pickled_nested_ind;
    intros h.
  1-4: exists []; by rewrite app_nil_r.
  - assert (Hthread : exists new,
      (thread unpickle items h).2 = h ++ new /\
      mapM (pickle (h ++ new)) (thread unpickle items h).1 = Some items).
    { clear k. revert h. induction IH as [|x xs Hx _ IHxs]; intros h.
      - exists []. by rewrite app_nil_r.
      - simpl. destruct (Hx h) as (n1 & E1 & P1).
        destruct (unpickle x h) as [v h1]. simpl in E1, P1. subst h1.
        destruct (IHxs (h ++ n1)) as (n2 & E2 & P2).
        destruct (thread _ _ _) as [vs h2]. simpl in E2, P2. subst h2.
        exists (n1 ++ n2). simpl. rewrite (assoc_L (++)). split; [done|].
        by rewrite (StoreFacts.pickle_app n2 _ _ _ P1), P2. }
    destruct Hthread as (new & E & P). exists new. simpl.
    destruct (thread unpickle items h) as [vs h']. simpl in *.
    by rewrite P.
  - exists [a]. simpl. split; [done|].
    by rewrite lookup_app_r, Nat.sub_diag.
Qed.

(** *** Steps of a group *)

Lemma existsb_fit (tr : transport) (ms : list pickled) :
  Forall (fun m => oversized tr m = false) ms ->
  existsb (oversized tr) ms = false.
Proof.
  induction 1 as [|m ms Hm _ IH]; [done|]. simpl. by rewrite Hm, IH.
Qed.

Lemma imap_fixed {A : Type} (f : nat -> A -> A) (l : list A) :
  (forall i x, l !! i = Some x -> f i x = x) -> imap f l = l.
Proof.
  intros Hf. apply list_eq. intros i. rewrite list_lookup_imap.
  destruct (l !! i) as [x|] eqn:Hx; [|done]. simpl. by rewrite (Hf i x).
Qed.

Lemma matches_call (c : call) (p : proc) :
  matches c p = true ->
  exists c' h k, p = Call c' h k /\ root_of c' = root_of c /\
                 forall q, matches c' q = matches c q.
Proof.
  destruct p as [| |c' h k]; [done | done |]. intros Hm.
  exists c', h, k. split; [done|].
  destruct c, c'; simpl in Hm; try done;
    apply bool_decide_eq_true in Hm as <-; (split; [done|]);
    by intros [| |[] ? ?].
Qed.

(** When no process fails on its own and every process is at a call that
    matches [c], the collective completes. *)
Lemma step_complete (tr : transport) (ps : list proc) (c : call) :
  ps <> [] ->
  (forall i p, ps !! i = Some p -> local tr i p = p /\ matches c p = true) ->
  (root_of c < length ps)%nat ->
  step tr ps = imap (deliver tr ps (root_of c)) ps.
Proof.
  intros Hne Hall Hroot. unfold step.
  rewrite imap_fixed by (intros i p Hp; by apply Hall).
  destruct ps as [|p0 ps']; [done|].
  destruct (matches_call c p0) as (c0 & h0 & k0 & -> & Hr & Hm).
  { by apply (Hall 0%nat). }
  rewrite Hr.
  assert (forallb (matches c0) (Call c0 h0 k0 :: ps') = true) as ->.
  { apply Is_true_true_1, forallb_True, Forall_lookup. intros i p Hp.
    rewrite Hm. apply Is_true_true_2. by apply (Hall i). }
  by rewrite bool_decide_eq_true_2.
Qed.

(** When no process fails on its own and some process has ended, nothing
    moves any more. *)
Lemma step_stuck (tr : transport) (ps : list proc) (i : nat) (p : proc) :
  (forall j q, ps !! j = Some q -> local tr j q = q) ->
  ps !! i = Some p -> finish p <> Blocked ->
  step tr ps = ps.
Proof.
  intros Hloc Hi Hend. unfold step. rewrite imap_fixed by done.
  destruct ps as [|[| |c h k] ps']; try done.
  assert (forallb (matches c) (Call c h k :: ps') = false) as ->; [|done].
  apply not_true_is_false. intros Hall.
  apply Is_true_true_2, forallb_True in Hall.
  rewrite Forall_lookup in Hall. specialize (Hall i p Hi).
  apply Is_true_true_1 in Hall.
  destruct (matches_call _ _ Hall) as (? & ? & ? & -> & _). by apply Hend.
Qed.

(** When some process has ended, no collective completes. *)
Lemma collective_stuck (ps : list proc) (i : nat) (p : proc) (c : call) :
  ps !! i = Some p -> finish p <> Blocked -> forallb (matches c) ps = false.
Proof.
  intros Hi Hend. apply not_true_is_false. intros Hall.
  apply Is_true_true_2, forallb_True in Hall.
  rewrite Forall_lookup in Hall. specialize (Hall i p Hi).
  apply Is_true_true_1 in Hall.
  destruct (matches_call _ _ Hall) as (? & ? & ? & -> & _). by apply Hend.
Qed.

(** A step in which one process fails on its own. *)
Lemma step_local {A : Type} (tr : transport) (g g' : nat -> A -> proc)
  (inputs : list A) (i : nat) (x : A) :
  (forall j y, inputs !! j = Some y -> local tr j (g j y) = g' j y) ->
  inputs !! i = Some x -> finish (g' i x) <> Blocked ->
  step tr (imap g inputs) = imap g' inputs.
Proof.
  intros Hloc Hi Hend. unfold step.
  assert (imap (local tr) (imap g inputs) = imap g' inputs) as ->.
  { apply list_eq. intros j. rewrite !list_lookup_imap.
    destruct (inputs !! j) as [y|] eqn:Hy; [|done]. simpl.
    by rewrite (Hloc j y). }
  destruct (imap g' inputs) as [|[| |c h k] ps'] eqn:E; try done.
  rewrite (collective_stuck _ i (g' i x) c); [done | | done].
  rewrite <- E, list_lookup_imap, Hi. done.
Qed.

Lemma iter_stuck (tr : transport) (ps : list proc) (n : nat) :
  step tr ps = ps -> Nat.iter n (step tr) ps = ps.
Proof. intros Hs. induction n as [|n IH]; [done|]. simpl. by rewrite IH. Qed.

Lemma run_steps (tr : transport) (n : nat) (ps ps' : list proc) (fuel : nat) :
  Nat.iter n (step tr) ps = ps' -> step tr ps' = ps' -> (n <= fuel)%nat ->
  run tr fuel ps = finish <$> ps'.
Proof.
  intros Hn Hs Hle. unfold run.
  replace fuel with ((fuel - n) + n)%nat by lia.
  rewrite Nat.iter_add, Hn. by rewrite iter_stuck.
Qed.

Lemma imap_lookup_Some {A B : Type} (f : nat -> A -> B) (l : list A)
  (i : nat) (y : B) :
  imap f l !! i = Some y -> exists x, l !! i = Some x /\ y = f i x.
Proof.
  rewrite list_lookup_imap. destruct (l !! i) as [x|]; [|done].
  intros [= <-]. by exists x.
Qed.

(** One collective over a group given process by process. *)
Lemma step_imap {A : Type} (tr : transport) (g g' : nat -> A -> proc)
  (inputs : list A) (c : call) :
  inputs <> [] -> (root_of c < length inputs)%nat ->
  (forall i x, inputs !! i = Some x ->
     local tr i (g i x) = g i x /\ matches c (g i x) = true /\
     deliver tr (imap g inputs) (root_of c) i (g i x) = g' i x) ->
  step tr (imap g inputs) = imap g' inputs.
Proof.
  intros Hne Hroot Hall. rewrite (step_complete tr _ c).
  - apply list_eq. intros i. rewrite !list_lookup_imap.
    destruct (inputs !! i) as [x|] eqn:Hx; [|done]. simpl.
    f_equal. by apply Hall.
  - by destruct inputs.
  - intros i p Hp. apply imap_lookup_Some in Hp as (x & Hx & ->).
    destruct (Hall i x Hx) as (? & ? & _). done.
  - by rewrite length_imap.
Qed.

(** A group whose processes have all returned stays as it is. *)
Lemma step_returned {A : Type} (tr : transport) (g : nat -> A -> proc)
  (inputs : list A) :
  (forall i x, inputs !! i = Some x -> finish (g i x) <> Blocked) ->
  step tr (imap g inputs) = imap g inputs.
Proof.
  intros Hall. destruct inputs as [|x0 inputs'] eqn:E; [done|].
  rewrite <- E in *. apply (step_stuck tr _ 0%nat (g 0%nat x0)).
  - intros j q Hq. apply imap_lookup_Some in Hq as (x & Hx & ->).
    specialize (Hall j x Hx). by destruct (g j x).
  - rewrite list_lookup_imap. by subst.
  - apply Hall. by subst.
Qed.

End TransportFacts.

(** ** The buffer-aware communicator *)

Module BufferCommFacts.
Import Transport BufferComm TransportFacts.

Lemma pickle_descriptor (h : store) (a : ndarray) :
  pickle h (descriptor_val a) = Some (descriptor a).
Proof.
  unfold descriptor_val, descriptor.
  rewrite pickle_seq. cbn [mapM]. rewrite pickle_seq. cbn [mapM].
  by rewrite pickle_shape_val.
Qed.

Lemma unpickle_descriptor (h : store) (a : ndarray) :
  unpickle (descriptor a) h = (descriptor_val a, h).
Proof.
  unfold descriptor_val, descriptor, shape_pickle, shape_val.
  cbn [unpickle thread]. by rewrite thread_unpickle_dims.
Qed.

Lemma write_prefix_all (old msg : list Z) :
  length old = length msg -> write_prefix old msg = msg.
Proof.
  intros Hlen. unfold write_prefix.
  rewrite Hlen, firstn_all, drop_ge by lia. apply app_nil_r.
Qed.

Lemma np_empty_length (rt : runtime) (s : list nat) (d : dtype) :
  length (data (np_empty rt s d)) = product s.
Proof. simpl. by rewrite length_map, length_seq. Qed.

(** An array received into a new array of its shape and element type. *)
Lemma recv_into_empty (rt : runtime) (a : ndarray) :
  wf_array a ->
  recv_into (np_empty rt (shape a) (dtype_of a)) (data a) = a.
Proof.
  intros Hwf. unfold recv_into.
  rewrite write_prefix_all by (by rewrite np_empty_length).
  by destruct a.
Qed.

Lemma insert_at_length (h : list ndarray) (e e' : ndarray)
  (rest : list ndarray) :
  <[length h := e']> (h ++ e :: rest) = h ++ e' :: rest.
Proof.
  replace (length h) with (length h + 0)%nat at 1 by lia.
  by rewrite insert_app_r.
Qed.

Lemma write_prefix_length (old msg : list Z) :
  length (write_prefix old msg) = length old.
Proof.
  unfold write_prefix. rewrite length_app, length_take, length_drop. lia.
Qed.

(** A message that fits is found at the start of the block it was
    received into. *)
Lemma write_prefix_take (old msg : list Z) :
  (length msg <= length old)%nat ->
  take (length msg) (write_prefix old msg) = msg.
Proof.
  intros Hle. unfold write_prefix.
  rewrite (take_ge msg) by done. by rewrite take_app_length.
Qed.

(** The rows of the buffer of a gather over [n] processes: row [i] is
    what was there with the message of rank [i] written over its start. *)
Lemma gather_into_rows (rt : runtime) (n c : nat) (d : dtype)
  (msgs : list (list Z)) :
  n <> 0%nat -> length msgs = n ->
  exists blocks,
    rows (gather_into n (np_empty rt [n; c] d) msgs)
      = (fun b => NDArray [c] d b) <$> blocks /\
    length blocks = n /\
    forall i b msg, blocks !! i = Some b -> msgs !! i = Some msg ->
      exists old, length old = c /\ b = write_prefix old msg.
Proof.
  intros Hn Hlen.
  set (junkd := data (np_empty rt [n; c] d)).
  assert (Hj : length junkd = (n * c)%nat).
  { unfold junkd. rewrite np_empty_length. simpl. lia. }
  exists (zip_with write_prefix (chunks n c junkd) msgs).
  assert (Hblen : length (zip_with write_prefix (chunks n c junkd) msgs) = n).
  { rewrite length_zip_with, StoreFacts.chunks_length. lia. }
  split_and!; [|done|].
  - unfold rows, gather_into.
    change (shape (np_empty rt [n; c] d)) with [n; c].
    change (dtype_of (np_empty rt [n; c] d)) with d.
    cbn [shape dtype_of data]. fold junkd. rewrite Hj.
    replace (n * c / n)%nat with c by (by rewrite Nat.mul_comm, Nat.div_mul).
    rewrite drop_ge by lia. rewrite app_nil_r.
    replace (product [c]) with c by (simpl; lia).
    rewrite <- Hblen at 1. rewrite StoreFacts.chunks_of_concat; [done|].
    apply Forall_lookup. intros i b Hb.
    apply lookup_zip_with_Some in Hb as (old & msg & -> & Hold & Hmsg).
    rewrite write_prefix_length.
    pose proof (StoreFacts.chunks_rows n c junkd Hj) as Hrows.
    rewrite Forall_lookup in Hrows. by apply (Hrows i).
  - intros i b msg Hb Hmsg.
    apply lookup_zip_with_Some in Hb as (old & msg' & -> & Hold & Hmsg').
    assert (msg' = msg) as -> by congruence.
    exists old. split; [|done].
    pose proof (StoreFacts.chunks_rows n c junkd Hj) as Hrows.
    rewrite Forall_lookup in Hrows. by apply (Hrows i).
Qed.

(** The loop that cuts the buffer back into arrays, when the start of
    every row is the data of the corresponding array. *)
Lemma arr_list_spec (c : nat) (d : dtype) (blocks : list (list Z))
  (arrays : list ndarray) :
  Forall2 (fun b a => shape a <> [] /\ wf_array a /\
                      take (product (shape a)) b = data a) blocks arrays ->
  forall h,
    arr_list ((fun b => NDArray [c] d b) <$> blocks) (shape <$> arrays) h
      = Ok (VArr <$> seq (length h) (length arrays),
            h ++ gathered_arrays d arrays).
Proof.
  induction 1 as [|b a blocks arrays (Hs & Hwf & Ht) _ IH]; intros h.
  - simpl. by rewrite app_nil_r.
  - csimpl. rewrite ShapeFacts.np_product_int by done. cbn [data dtype_of].
    rewrite Ht. unfold reshape. cbn [data dtype_of].
    rewrite decide_True by done. cbn [mbind result_bind alloc].
    rewrite IH. cbn [mbind result_bind]. rewrite length_app. simpl.
    rewrite <- (assoc_L (++)). simpl.
    by replace (length h + 1)%nat with (S (length h)) by lia.
Qed.

Lemma decode_shapes_vals (shapes : list (list nat)) :
  decode_shapes (VSeq KList (shape_val <$> shapes)) = Some shapes.
Proof.
  unfold decode_shapes. apply mapM_Some.
  induction shapes as [|s shapes IH]; csimpl; constructor; [|done].
  apply to_shape_shape_val.
Qed.

Lemma replace_empty_spec (rt : runtime) (a : ndarray) (l : nat)
  (h : list ndarray) :
  h !! l = Some a ->
  exists ph,
    (replace_empty rt a l h).2 = h ++ ph /\
    (h ++ ph) !! (replace_empty rt a l h).1 = Some (send_object rt a).
Proof.
  intros Hl. unfold replace_empty, send_object.
  destruct (np_all (shape a)).
  - exists []. rewrite app_nil_r. done.
  - eexists [_]. split; [done|]. simpl.
    by rewrite lookup_app_r, Nat.sub_diag.
Qed.

Lemma send_object_dtype (rt : runtime) (a : ndarray) :
  dtype_of (send_object rt a) = dtype_of a.
Proof. unfold send_object. by destruct (np_all (shape a)). Qed.

(** The data of an array is found at the start of the row its process
    sent it to, also when what was sent is the dummy for an array with an
    empty dimension. *)
Lemma take_written (rt : runtime) (a : ndarray) (old : list Z) :
  wf_array a -> (product (shape a) <= length old)%nat ->
  take (product (shape a))
    (write_prefix old (data (ravel (send_object rt a)))) = data a.
Proof.
  intros Hwf Hle. unfold wf_array in Hwf. unfold send_object, ravel.
  cbn [data].
  destruct (np_all (shape a)) eqn:Hall.
  - rewrite <- Hwf. apply write_prefix_take. by rewrite Hwf.
  - rewrite (ShapeFacts.np_all_false_product _ Hall) in *.
    rewrite take_0. symmetry. by apply nil_length_inv.
Qed.

(** The class name of no value is the tag of an array descriptor. *)
Lemma class_name_not_tag (v : pyval) : is_tag (VStr (class_name v)) = false.
Proof. by destruct v as [| | | |[]|]. Qed.

Lemma inputs_nonempty {A : Type} (root : nat) (inputs : list A) (x : A) :
  inputs !! root = Some x -> inputs <> [] /\ (root < length inputs)%nat.
Proof.
  intros Hx. split; [by destruct inputs|]. by eapply lookup_lt_Some.
Qed.

Lemma finish_imap_lookup {A : Type} (g : nat -> A -> proc) (inputs : list A)
  (i : nat) (x : A) :
  inputs !! i = Some x ->
  (finish <$> imap g inputs) !! i = Some (finish (g i x)).
Proof. intros Hx. by rewrite list_lookup_fmap, list_lookup_imap, Hx. Qed.

(** *** Broadcast of an array *)

Section bcast_array.
Context (tr : transport) (rt : runtime) (root : nat)
  (inputs : list (pyval * list ndarray)) (l : nat) (hr : list ndarray)
  (a : ndarray).
Hypothesis Hroot : inputs !! root = Some (VArr l, hr).
Hypothesis Hl : hr !! l = Some a.
Hypothesis Hwf : wf_array a.
Hypothesis Hfit : oversized tr (descriptor a) = false.

Lemma bcast_array_step1 :
  step tr (group_bcast rt root inputs) = imap (array_announced rt root l hr a) inputs.
Proof.
  destruct (inputs_nonempty root inputs _ Hroot) as [Hne Hlt].
  apply (step_imap tr _ _ inputs (Transport.bcast VNone root) Hne Hlt).
  intros i x Hx. unfold BufferComm.bcast, array_announced.
  destruct (decide (i = root)) as [->|Hi].
  - assert (x = (VArr l, hr)) as -> by congruence.
    unfold bcast_sender. cbn [fst snd]. rewrite Hl.
    cbn [local deliver matches root_of].
    rewrite decide_True by done.
    fold (descriptor_val a).
    rewrite pickle_descriptor, Hfit.
    rewrite bool_decide_eq_true_2 by done. by rewrite decide_True by done.
  - unfold bcast_receiver. cbn [local deliver matches root_of].
    rewrite decide_False by done.
    rewrite bool_decide_eq_true_2 by done.
    split_and!; [reflexivity | reflexivity |].
    rewrite list_lookup_imap, Hroot. cbn [fmap option_fmap option_map mbind option_bind].
    unfold BufferComm.bcast. cbn beta.
    rewrite (decide_False (P := i = root)) by done.
    rewrite (decide_True (P := root = root)) by done.
    unfold bcast_sender. cbn [fst snd]. rewrite Hl. cbn [sent_pickle].
    fold (descriptor_val a).
    rewrite pickle_descriptor, unpickle_descriptor.
    unfold descriptor_val.
    cbn [propagate unpack2 iter_items mbind result_bind is_tag empty_from].
    rewrite bool_decide_eq_true_2 by done.
    by rewrite to_shape_shape_val.
Qed.

Lemma bcast_array_step2 :
  step tr (imap (array_announced rt root l hr a) inputs) = imap (array_received root l hr a) inputs.
Proof.
  destruct (inputs_nonempty root inputs _ Hroot) as [Hne Hlt].
  apply (step_imap tr _ _ inputs (Transport.Bcast 0%nat root) Hne Hlt).
  intros i x Hx. unfold array_announced, array_received.
  destruct (decide (i = root)) as [->|Hi].
  - cbn. rewrite decide_True by done. by rewrite bool_decide_eq_true_2.
  - cbn [local deliver matches root_of].
    rewrite decide_False by done.
    rewrite bool_decide_eq_true_2 by done. split_and!; [done | done |].
    rewrite list_lookup_imap, Hroot. cbn [fmap option_fmap option_map mbind option_bind].
    rewrite decide_True by done. cbn [sent_buffer]. rewrite Hl.
    rewrite (lookup_app_r x.2) by done. rewrite Nat.sub_diag.
    cbn [lookup list_lookup]. unfold typed_recv, fits.
    cbn [forallb dtype_of np_empty].
    rewrite bool_decide_eq_true_2 by done.
    rewrite bool_decide_eq_true_2
      by (rewrite np_empty_length, Nat.div_1_r; unfold wf_array in Hwf; lia).
    cbn [andb propagate].
    by rewrite (insert_at_length x.2 _ _ []), recv_into_empty.
Qed.

Lemma bcast_array_run (fuel : nat) :
  (2 <= fuel)%nat ->
  run tr fuel (group_bcast rt root inputs)
    = finish <$> imap (array_received root l hr a) inputs.
Proof.
  intros Hfuel. apply (run_steps tr 2); [| |done].
  - simpl. by rewrite bcast_array_step1, bcast_array_step2.
  - apply step_returned. intros i x _. unfold array_received.
    by destruct (decide (i = root)).
Qed.

End bcast_array.

(** *** Broadcast of an object that is not an array *)

Lemma bcast_sender_generic (rt : runtime) (obj : pyval) (root : nat)
  (h : list ndarray) :
  (forall l, obj <> VArr l) ->
  bcast_sender rt obj root h =
    Call (Transport.bcast (VSeq KList [VStr (class_name obj); obj]) root) h
      (bcast_sender_except rt obj).
Proof. intros Hobj. destruct obj; try done. by destruct (Hobj l). Qed.

Section bcast_generic.
Context (tr : transport) (rt : runtime) (root : nat)
  (inputs : list (pyval * list ndarray)) (obj : pyval) (hr : list ndarray)
  (m : pickled).
Hypothesis Hroot : inputs !! root = Some (obj, hr).
Hypothesis Hobj : forall l, obj <> VArr l.
Hypothesis Hm : pickle hr obj = Some m.

Lemma pickle_generic_message :
  pickle hr (VSeq KList [VStr (class_name obj); obj])
    = Some (generic_message obj m).
Proof. rewrite pickle_seq. cbn [mapM]. by rewrite Hm. Qed.

Lemma bcast_generic_step :
  oversized tr (generic_message obj m) = false ->
  step tr (group_bcast rt root inputs)
    = imap (generic_received root obj hr m) inputs.
Proof.
  intros Hfit. destruct (inputs_nonempty root inputs _ Hroot) as [Hne Hlt].
  apply (step_imap tr _ _ inputs (Transport.bcast VNone root) Hne Hlt).
  intros i x Hx. unfold BufferComm.bcast, generic_received.
  destruct (decide (i = root)) as [->|Hi].
  - assert (x = (obj, hr)) as -> by congruence. cbn [fst snd].
    rewrite bcast_sender_generic by done.
    cbn [local deliver matches root_of].
    rewrite decide_True by done.
    rewrite pickle_generic_message, Hfit.
    rewrite bool_decide_eq_true_2 by done. by rewrite decide_True by done.
  - unfold bcast_receiver. cbn [local deliver matches root_of].
    rewrite decide_False by done.
    rewrite bool_decide_eq_true_2 by done.
    split_and!; [reflexivity | reflexivity |].
    rewrite list_lookup_imap, Hroot.
    cbn [fmap option_fmap option_map mbind option_bind].
    unfold BufferComm.bcast. cbn beta.
    rewrite (decide_False (P := i = root)) by done.
    rewrite (decide_True (P := root = root)) by done.
    cbn [fst snd]. rewrite bcast_sender_generic by done. cbn [sent_pickle].
    rewrite pickle_generic_message. unfold generic_message.
    rewrite unpickle_seq. cbn [thread unpickle].
    destruct (unpickle m x.2) as [v h'].
    cbn [propagate unpack2 iter_items mbind result_bind].
    by rewrite class_name_not_tag.
Qed.

Lemma bcast_generic_run (fuel : nat) :
  oversized tr (generic_message obj m) = false -> (1 <= fuel)%nat ->
  run tr fuel (group_bcast rt root inputs)
    = finish <$> imap (generic_received root obj hr m) inputs.
Proof.
  intros Hfit Hfuel. apply (run_steps tr 1); [| |done].
  - simpl. by rewrite bcast_generic_step.
  - apply step_returned. intros i x _. unfold generic_received.
    destruct (decide (i = root)); [done|]. by destruct (unpickle m x.2).
Qed.

Lemma bcast_oversized_step :
  oversized tr (generic_message obj m) = true ->
  step tr (group_bcast rt root inputs)
    = imap (generic_failed rt root obj hr) inputs.
Proof.
  intros Hbig. apply (step_local tr _ _ inputs root (obj, hr)); [|done|].
  - intros j y Hy. unfold BufferComm.bcast, generic_failed.
    destruct (decide (j = root)) as [->|Hj].
    + assert (y = (obj, hr)) as -> by congruence. cbn [fst snd].
      rewrite bcast_sender_generic by done. cbn [local].
      rewrite decide_True by done.
      by rewrite pickle_generic_message, Hbig.
    + unfold bcast_receiver. cbn [local]. by rewrite decide_False by done.
  - unfold generic_failed. by rewrite decide_True by done.
Qed.

Lemma bcast_oversized_run (fuel : nat) :
  oversized tr (generic_message obj m) = true -> (1 <= fuel)%nat ->
  run tr fuel (group_bcast rt root inputs)
    = finish <$> imap (generic_failed rt root obj hr) inputs.
Proof.
  intros Hbig Hfuel. apply (run_steps tr 1); [| |done].
  - simpl. by rewrite bcast_oversized_step.
  - apply (step_local tr _ _ inputs root (obj, hr)); [|done|].
    + intros j y Hy. unfold generic_failed.
      destruct (decide (j = root)) as [->|Hj]; [done|].
      unfold bcast_receiver. cbn [local]. by rewrite decide_False by done.
    + unfold generic_failed. by rewrite decide_True by done.
Qed.

End bcast_generic.

(** *** Gather of arrays *)

Section gather_arrays.
Context (tr : transport) (rt : runtime) (root : nat)
  (inputs : list (pyval * list ndarray)) (arrays : list ndarray) (d : nat).
Hypothesis Harr : Forall2 holds_array inputs arrays.
Hypothesis Hdim : Forall (fun a => length (shape a) = S d) arrays.
Hypothesis Hroot : (root < length inputs)%nat.

Lemma arrays_length : length arrays = length inputs.
Proof. symmetry. by eapply Forall2_length. Qed.

Lemma capacity_spec :
  exists m, np_max_axis0 (shape <$> arrays) = Ok m /\ m <> [] /\
    row_capacity (shape <$> arrays) = product m /\
    Forall (fun a => (product (shape a) <= product m)%nat) arrays.
Proof.
  destruct (ShapeFacts.np_max_axis0_same (S d) (shape <$> arrays))
    as (m & Hm & Hlen & Hle).
  - pose proof arrays_length. destruct arrays; simpl in *; [lia | done].
  - apply Forall_fmap. eapply Forall_impl; [exact Hdim|]. done.
  - exists m. split_and!; [done | by destruct m | |].
    + unfold row_capacity. by rewrite Hm.
    + by apply Forall_fmap in Hle.
Qed.

Lemma shaped_sender (i : nat) (x : pyval * list ndarray) (a : ndarray) :
  i <> root -> holds_array x a ->
  exists h1 ls,
    shapes_gathered rt root arrays i x =
      Call (Gatherv ls None root) h1
        (propagate (fun _ h => Return VNone h)) /\
    h1 !! ls = Some (ravel (send_object rt a)).
Proof.
  intros Hi (l & Hx & Hl). unfold shapes_gathered. rewrite Hx, Hl.
  unfold gather_shaped.
  destruct (replace_empty_spec rt a l x.2 Hl) as (ph & E & L).
  destruct (replace_empty rt a l x.2) as [lobj h']. simpl in E, L. subst h'.
  rewrite L. rewrite decide_False by done. unfold gather_send.
  cbn [alloc]. eexists _, _. split; [done|].
  by rewrite lookup_app_r, Nat.sub_diag.
Qed.

Lemma shaped_receiver (x : pyval * list ndarray) (a : ndarray) :
  holds_array x a ->
  exists hb,
    shapes_gathered rt root arrays root x =
      Call (Gatherv (S (length hb)) (Some (length hb)) root)
        (hb ++ [np_empty rt
                  [length arrays; row_capacity (shape <$> arrays)]
                  (dtype_of a);
                ravel (send_object rt a)])
        (propagate (fun _ h =>
           gather_receiver_end (length hb) (shape <$> arrays) h)).
Proof.
  intros (l & Hx & Hl). unfold shapes_gathered. rewrite Hx, Hl.
  rewrite decide_True by done. unfold gather_shaped.
  destruct (replace_empty_spec rt a l x.2 Hl) as (ph & E & L).
  destruct (replace_empty rt a l x.2) as [lobj h']. simpl in E, L. subst h'.
  rewrite L. rewrite decide_True by done. rewrite decode_shapes_vals.
  destruct capacity_spec as (m & Hm & Hne & Hc & _).
  rewrite Hm, (ShapeFacts.np_product_int m Hne), Hc.
  unfold gather_recv. cbn [alloc]. rewrite send_object_dtype.
  exists (x.2 ++ ph). rewrite length_app. cbn [length].
  rewrite <- (assoc_L (++)). cbn [app].
  by replace (length (x.2 ++ ph) + 1)%nat with (S (length (x.2 ++ ph))) by lia.
Qed.

Hypothesis Hfit :
  Forall (fun a => oversized tr (shape_pickle (shape a)) = false) arrays.

Lemma gather_array_call (i : nat) (x : pyval * list ndarray) (a : ndarray) :
  holds_array x a ->
  BufferComm.gather rt i (length inputs) x.1 root x.2 =
    Call (Transport.gather (shape_val (shape a)) root) x.2
      (propagate (fun v h =>
         match x.1 with
         | VArr l => gather_shaped rt i (length inputs) a l root v h
         | _ => Throw ValueError h
         end)).
Proof.
  intros (l & Hx & Hl). unfold BufferComm.gather. by rewrite Hx, Hl.
Qed.

Lemma sent_shapes :
  mapM sent_pickle (group_gather rt root inputs)
    = Some (shape_pickle <$> (shape <$> arrays)).
Proof.
  apply mapM_Some. unfold group_gather.
  apply Forall2_same_length_lookup_2.
  { by rewrite length_imap, !length_fmap, arrays_length. }
  intros i p mp Hp Hmp.
  apply imap_lookup_Some in Hp as (x & Hx & ->).
  rewrite !list_lookup_fmap in Hmp.
  destruct (arrays !! i) as [a|] eqn:Ha; [|done]. injection Hmp as <-.
  pose proof (Forall2_lookup_lr _ _ _ _ _ _ Harr Hx Ha) as Hxa.
  rewrite (gather_array_call i x a Hxa). cbn [sent_pickle].
  apply pickle_shape_val.
Qed.

Lemma unpickle_shapes (h : list ndarray) (shapes : list (list nat)) :
  unpickle (PSeq KList (shape_pickle <$> shapes)) h
    = (VSeq KList (shape_val <$> shapes), h).
Proof.
  rewrite unpickle_seq.
  assert (thread unpickle (shape_pickle <$> shapes) h
          = (shape_val <$> shapes, h)) as Ht.
  { induction shapes as [|s shapes IH]; [done|].
    rewrite !fmap_cons. cbn [thread]. by rewrite unpickle_shape, IH. }
  by rewrite Ht.
Qed.

Lemma gather_arrays_step1 :
  step tr (group_gather rt root inputs)
    = imap (shapes_gathered rt root arrays) inputs.
Proof.
  assert (Hne : inputs <> []) by (destruct inputs; simpl in *; [lia|done]).
  apply (step_imap tr _ _ inputs (Transport.gather VNone root) Hne Hroot).
  intros i x Hx.
  destruct (Forall2_lookup_l _ _ _ _ _ Harr Hx) as (a & Ha & Hxa).
  rewrite (gather_array_call i x a Hxa).
  cbn [local deliver matches root_of].
  rewrite pickle_shape_val.
  rewrite bool_decide_eq_true_2 by done.
  split_and!; [|reflexivity|].
  { rewrite Forall_lookup in Hfit. rewrite (Hfit i a Ha).
    by destruct (decide (i = root)). }
  destruct Hxa as (l & Hl1 & Hl2). unfold shapes_gathered.
  rewrite Hl1, Hl2, arrays_length.
  destruct (decide (i = root)) as [->|Hi].
  - fold (group_gather rt root inputs). rewrite sent_shapes.
    rewrite existsb_fit
      by (by rewrite <- list_fmap_compose; apply Forall_fmap).
    by rewrite unpickle_shapes.
  - done.
Qed.

Lemma shaped_call (i : nat) (x : pyval * list ndarray) :
  inputs !! i = Some x ->
  local tr i (shapes_gathered rt root arrays i x)
    = shapes_gathered rt root arrays i x /\
  matches (Gatherv 0%nat None root) (shapes_gathered rt root arrays i x)
    = true.
Proof.
  intros Hx.
  destruct (Forall2_lookup_l _ _ _ _ _ Harr Hx) as (a & Ha & Hxa).
  destruct (decide (i = root)) as [->|Hi].
  - destruct (shaped_receiver x a Hxa) as (hb & ->).
    cbn. by rewrite bool_decide_eq_true_2.
  - destruct (shaped_sender i x a Hi Hxa) as (h1 & ls & -> & _).
    cbn. by rewrite bool_decide_eq_true_2.
Qed.

Lemma gather_arrays_step2 :
  step tr (imap (shapes_gathered rt root arrays) inputs)
    = imap (arrays_gathered tr rt root inputs arrays) inputs.
Proof.
  assert (Hne : inputs <> []) by (destruct inputs; simpl in *; [lia|done]).
  apply (step_imap tr _ _ inputs (Gatherv 0%nat None root) Hne Hroot).
  intros i x Hx. destruct (shaped_call i x Hx) as [H1 H2].
  by split_and!.
Qed.

Lemma sent_buffers :
  mapM sent_buffer (imap (shapes_gathered rt root arrays) inputs)
    = Some ((fun a => ravel (send_object rt a)) <$> arrays).
Proof.
  apply mapM_Some. apply Forall2_same_length_lookup_2.
  { by rewrite length_imap, length_fmap, arrays_length. }
  intros i p b Hp Hb.
  apply imap_lookup_Some in Hp as (x & Hx & ->).
  rewrite list_lookup_fmap in Hb.
  destruct (arrays !! i) as [a|] eqn:Ha; [|done]. injection Hb as <-.
  pose proof (Forall2_lookup_lr _ _ _ _ _ _ Harr Hx Ha) as Hxa.
  destruct (decide (i = root)) as [->|Hi].
  - destruct (shaped_receiver x a Hxa) as (hb & ->). cbn [sent_buffer].
    rewrite lookup_app_r by lia.
    by replace (S (length hb) - length hb)%nat with 1%nat by lia.
  - by destruct (shaped_sender i x a Hi Hxa) as (h1 & ls & -> & ?).
Qed.

(** A process that is not the root returns [None]. *)
Lemma gathered_sender (i : nat) (x : pyval * list ndarray) :
  i <> root -> inputs !! i = Some x ->
  exists h1, arrays_gathered tr rt root inputs arrays i x = Return VNone h1.
Proof.
  intros Hi Hx.
  destruct (Forall2_lookup_l _ _ _ _ _ Harr Hx) as (a & Ha & Hxa).
  unfold arrays_gathered.
  destruct (shaped_sender i x a Hi Hxa) as (h1 & ls & -> & _).
  cbn [deliver]. rewrite decide_False by done. by exists h1.
Qed.

(** The send buffers fit the buffer of the root when the arrays have
    the element type of the root's and a row holds an element. *)
Lemma send_buffers_fit (ar : ndarray) :
  Forall wf_array arrays ->
  Forall (fun a => dtype_of a = dtype_of ar) arrays ->
  (1 <= row_capacity (shape <$> arrays))%nat ->
  fits (length arrays)
    (np_empty rt [length arrays; row_capacity (shape <$> arrays)]
       (dtype_of ar))
    ((fun a => ravel (send_object rt a)) <$> arrays) = true.
Proof.
  intros Hwf Hdt Hroom. unfold fits.
  apply Is_true_true_1, forallb_True, Forall_fmap, Forall_lookup.
  intros i a Ha. apply Is_true_true_2.
  rewrite Forall_lookup in Hwf, Hdt.
  rewrite np_empty_length.
  replace (product [length arrays; row_capacity (shape <$> arrays)])
    with (row_capacity (shape <$> arrays) * length arrays)%nat
    by (simpl; lia).
  rewrite Nat.div_mul
    by (pose proof arrays_length; apply lookup_lt_Some in Ha; lia).
  apply andb_true_iff. split; apply bool_decide_eq_true_2.
  - cbn [ravel dtype_of]. rewrite send_object_dtype.
    change (dtype_of (np_empty rt _ (dtype_of ar))) with (dtype_of ar).
    by apply (Hdt i).
  - cbn [ravel data]. unfold send_object.
    destruct (np_all (shape a)) eqn:Hall.
    + destruct capacity_spec as (m & _ & _ & Hc & Hle).
      rewrite Forall_lookup in Hle. specialize (Hle i a Ha).
      specialize (Hwf i a Ha). unfold wf_array in Hwf. lia.
    + rewrite np_empty_length.
      assert (product (replicate (length (shape a)) 1%nat) = 1%nat) as ->
        by (clear; induction (length (shape a)) as [|n IH]; simpl;
            [done | by rewrite IH]).
      done.
Qed.

(** The root returns the list of the arrays of all processes, as new
    objects with the shape and the data of the originals. *)
Lemma gathered_receiver (x : pyval * list ndarray) (ar : ndarray) :
  Forall wf_array arrays ->
  Forall (fun a => dtype_of a = dtype_of ar) arrays ->
  (1 <= row_capacity (shape <$> arrays))%nat ->
  inputs !! root = Some x -> arrays !! root = Some ar ->
  exists hG,
    arrays_gathered tr rt root inputs arrays root x =
      Return (VSeq KList (VArr <$> seq (length hG) (length arrays)))
        (hG ++ gathered_arrays (dtype_of ar) arrays).
Proof.
  intros Hwf Hdt Hroom Hx Har.
  pose proof (Forall2_lookup_lr _ _ _ _ _ _ Harr Hx Har) as Hxa.
  unfold arrays_gathered.
  destruct (shaped_receiver x ar Hxa) as (hb & ->).
  cbn [deliver]. rewrite decide_True by done. rewrite sent_buffers.
  rewrite length_imap, <- arrays_length.
  rewrite (lookup_app_r hb) by done. rewrite Nat.sub_diag.
  cbn [lookup list_lookup].
  unfold typed_gather. rewrite (send_buffers_fit ar Hwf Hdt Hroom).
  cbn [propagate]. rewrite insert_at_length.
  set (msgs := data <$> ((fun a => ravel (send_object rt a)) <$> arrays)).
  set (c := row_capacity (shape <$> arrays)).
  destruct (gather_into_rows rt (length arrays) c (dtype_of ar) msgs)
    as (blocks & Hrows & Hblen & Hblocks).
  { pose proof arrays_length. lia. }
  { unfold msgs. by rewrite !length_fmap. }
  unfold gather_receiver_end.
  rewrite lookup_app_r by lia. rewrite Nat.sub_diag. cbn [lookup list_lookup].
  rewrite Hrows.
  rewrite (arr_list_spec c (dtype_of ar) blocks arrays).
  - by eexists.
  - apply Forall2_same_length_lookup_2; [done|].
    intros i b a Hb Ha.
    assert (Hmsg : msgs !! i = Some (data (ravel (send_object rt a)))).
    { unfold msgs. by rewrite !list_lookup_fmap, Ha. }
    destruct (Hblocks i b _ Hb Hmsg) as (old & Hold & ->).
    destruct capacity_spec as (m & _ & _ & Hc & Hle).
    rewrite Forall_lookup in Hwf, Hdim, Hle.
    split_and!.
    + intros E. specialize (Hdim i a Ha). simpl in Hdim.
      by rewrite E in Hdim.
    + by apply (Hwf i).
    + apply take_written; [by apply (Hwf i)|].
      rewrite Hold. unfold c. rewrite Hc. by apply (Hle i).
Qed.

(** The run of a gather of arrays. *)
Lemma gather_arrays_run (ar : ndarray) (fuel : nat) :
  Forall wf_array arrays ->
  Forall (fun a => dtype_of a = dtype_of ar) arrays ->
  (1 <= row_capacity (shape <$> arrays))%nat ->
  arrays !! root = Some ar -> (2 <= fuel)%nat ->
  run tr fuel (group_gather rt root inputs)
    = finish <$> imap (arrays_gathered tr rt root inputs arrays) inputs.
Proof.
  intros Hwf Hdt Hroom Har Hfuel. apply (run_steps tr 2); [| |done].
  - simpl. by rewrite gather_arrays_step1, gather_arrays_step2.
  - apply step_returned. intros i x Hx.
    destruct (decide (i = root)) as [->|Hi].
    + by destruct (gathered_receiver x ar Hwf Hdt Hroom Hx Har) as (hG & ->).
    + by destruct (gathered_sender i x Hi Hx) as (h1 & ->).
Qed.

End gather_arrays.

Lemma gathered_arrays_same (dt : dtype) (arrays : list ndarray) :
  Forall (fun a => dtype_of a = dt) arrays ->
  gathered_arrays dt arrays = arrays.
Proof.
  intros Hdt. unfold gathered_arrays.
  induction Hdt as [|a arrays Ha _ IH]; [done|].
  rewrite fmap_cons, IH. f_equal. destruct a. simpl in Ha. by subst.
Qed.

(** C2, for arrays that have one number of dimensions, at least one, and
    one element type, with along every axis a nonzero extent on some
    process, so that every send buffer fits its row of the root's buffer
    (the shapes being within the ceiling of the generic gather): the root
    returns the list, by rank, of new arrays, entry [r] equal to the array
    of rank [r] in shape, element type and contents, cut out of row [r]
    of the buffer; every other process returns [None]. *)
Theorem gather_arrays_returns (tr : transport) (rt : runtime) (root : nat)
  (inputs : list (pyval * list ndarray)) (arrays : list ndarray) (d : nat)
  (ar : ndarray) (fuel : nat) :
  Forall2 holds_array inputs arrays ->
  Forall wf_array arrays ->
  Forall (fun a => length (shape a) = S d) arrays ->
  Forall (fun a => dtype_of a = dtype_of ar) arrays ->
  (1 <= row_capacity (shape <$> arrays))%nat ->
  Forall (fun a => oversized tr (shape_pickle (shape a)) = false) arrays ->
  arrays !! root = Some ar -> (2 <= fuel)%nat ->
  (exists hG,
     run tr fuel (group_gather rt root inputs) !! root =
       Some (Returned (VSeq KList (VArr <$> seq (length hG) (length arrays)))
               (hG ++ arrays)) /\
     forall r a, arrays !! r = Some a ->
       (hG ++ arrays) !! (length hG + r)%nat = Some a) /\
  (forall i x, inputs !! i = Some x -> i <> root ->
     exists h1,
       run tr fuel (group_gather rt root inputs) !! i
         = Some (Returned VNone h1)).
Proof.
  intros Harr Hwf Hdim Hdt Hroom Hfit Har Hfuel.
  assert (Hroot : (root < length inputs)%nat).
  { rewrite <- (arrays_length inputs arrays Harr). by eapply lookup_lt_Some. }
  rewrite (gather_arrays_run tr rt root inputs arrays d Harr Hdim Hroot Hfit
             ar fuel) by done.
  split.
  - destruct (lookup_lt_is_Some_2 inputs root Hroot) as [xr Hxr].
    destruct (gathered_receiver tr rt root inputs arrays d Harr Hdim Hroot
                xr ar Hwf Hdt Hroom Hxr Har) as (hG & HG).
    rewrite (gathered_arrays_same _ _ Hdt) in HG.
    exists hG. rewrite (finish_imap_lookup _ _ _ _ Hxr), HG.
    split; [done|]. intros r a Ha.
    rewrite lookup_app_r by lia.
    by replace (length hG + r - length hG)%nat with r by lia.
  - intros i x Hx Hi. rewrite (finish_imap_lookup _ _ _ _ Hx).
    destruct (gathered_sender tr rt root inputs arrays Harr i x Hi Hx)
      as (h1 & ->).
    by exists h1.
Qed.

(** A gather of arrays under the gather invariant, with at least one
    dimension: after the gather of the shapes every process is at one
    [Gatherv] with its flattened array (or dummy) as send buffer, and the
    receive buffer of the root is a new array of the element type of its
    argument with room for [size] times the largest number of elements
    among the gathered shapes. *)
Lemma gather_buffer (tr : transport) (rt : runtime) (root : nat)
  (inputs : list (pyval * list ndarray)) (arrays : list ndarray) (d k : nat)
  (ar : ndarray) :
  Forall2 holds_array inputs arrays ->
  Forall (fun a => length (shape a) = S d) arrays ->
  Forall (fun a => oversized tr (shape_pickle (shape a)) = false) arrays ->
  one_axis_differs k (shape <$> arrays) ->
  arrays !! root = Some ar ->
  (exists hb buff cont,
     Nat.iter 1 (step tr) (group_gather rt root inputs) !! root =
       Some (Call (Gatherv (S (length hb)) (Some (length hb)) root)
               (hb ++ [buff; ravel (send_object rt ar)]) cont) /\
     dtype_of buff = dtype_of ar /\
     length (data buff) =
       (length inputs * max_list (product <$> (shape <$> arrays)))%nat) /\
  (forall i x a, inputs !! i = Some x -> arrays !! i = Some a ->
     exists ls recvbuf h1 cont,
       Nat.iter 1 (step tr) (group_gather rt root inputs) !! i
         = Some (Call (Gatherv ls recvbuf root) h1 cont) /\
       h1 !! ls = Some (ravel (send_object rt a))).
Proof.
  intros Harr Hdim Hfit Hone Har.
  assert (Hroot : (root < length inputs)%nat).
  { rewrite <- (arrays_length inputs arrays Harr). by eapply lookup_lt_Some. }
  simpl. rewrite (gather_arrays_step1 tr rt root inputs arrays) by done.
  split.
  - destruct (lookup_lt_is_Some_2 inputs root Hroot) as [xr Hxr].
    pose proof (Forall2_lookup_lr _ _ _ _ _ _ Harr Hxr Har) as Hxa.
    destruct (shaped_receiver rt root inputs arrays d Harr Hdim Hroot xr ar Hxa)
      as (hb & Hcall).
    eexists hb, _, _. rewrite list_lookup_imap, Hxr. simpl.
    rewrite Hcall. split_and!; [done | done |].
    rewrite np_empty_length. simpl.
    rewrite (ShapeFacts.row_capacity_max_count k (S d)).
    + rewrite (arrays_length inputs arrays Harr). lia.
    + intros E. apply fmap_nil_inv in E. by rewrite E in Har.
    + by apply Forall_fmap.
    + done.
  - intros i x a Hx Ha. rewrite list_lookup_imap, Hx. simpl.
    pose proof (Forall2_lookup_lr _ _ _ _ _ _ Harr Hx Ha) as Hxa.
    destruct (decide (i = root)) as [->|Hi].
    + destruct (shaped_receiver rt root inputs arrays d Harr Hdim Hroot x a Hxa)
        as (hb & ->).
      eexists _, _, _, _. split; [done|].
      rewrite lookup_app_r by lia.
      by replace (S (length hb) - length hb)%nat with 1%nat by lia.
    + destruct (shaped_sender rt root arrays i x a Hi Hxa)
        as (h1 & ls & -> & Hls).
      by eexists _, _, _, _.
Qed.

(** *** On the dummy layer *)

Lemma astype_same (rt : runtime) (d : dtype) (l : list Z) :
  map (astype rt d d) l = l.
Proof.
  induction l as [|z l IH]; simpl; [done|].
  unfold astype at 1. rewrite decide_True by done. by rewrite IH.
Qed.

(** The slice assignment of the flattened array (or dummy) into the
    buffer of one row. *)
Lemma dummy_row (rt : runtime) (a : ndarray) :
  wf_array a ->
  exists newd,
    setitem_all rt (np_empty rt [1%nat; product (shape a)] (dtype_of a))
      (Ok (ravel (send_object rt a)))
      = Ok (NDArray [1%nat; product (shape a)] (dtype_of a) newd) /\
    take (product (shape a)) (take (product [product (shape a)]) newd)
      = data a.
Proof.
  intros Hwf. unfold wf_array in Hwf. unfold setitem_all, send_object.
  rewrite decide_False by done. cbn [mbind result_bind].
  change (shape (np_empty rt [1%nat; product (shape a)] (dtype_of a)))
    with [1%nat; product (shape a)].
  change (dtype_of (np_empty rt [1%nat; product (shape a)] (dtype_of a)))
    with (dtype_of a).
  destruct (np_all (shape a)) eqn:Hall.
  - exists (data a). unfold ravel. cbn [shape data dtype_of].
    rewrite Hwf.
    change (align_shape (length [1%nat; product (shape a)])
              [product (shape a)])
      with (Some [1%nat; product (shape a)]).
    cbn beta iota.
    rewrite StoreFacts.broadcast_data_same by (simpl; lia).
    rewrite astype_same. split; [done|].
    rewrite !take_ge; [done | simpl; lia | rewrite length_take; simpl; lia].
  - pose proof (ShapeFacts.np_all_false_product _ Hall) as Hp.
    rewrite Hp in *. exists []. split.
    + unfold ravel. cbn [shape data dtype_of]. rewrite np_empty_length.
      assert (product (replicate (length (shape a)) 1%nat) = 1%nat) as ->.
      { clear. induction (length (shape a)) as [|n IH]; simpl; [done|].
        by rewrite IH. }
      done.
    + rewrite take_0. symmetry. by apply nil_length_inv.
Qed.

(** A gather of one array of at least one dimension through the wrapper
    of a dummy communicator returns the list of one new array equal to
    it, also when it has an empty dimension. *)
Lemma dummy_gather_array (rt : runtime) (name : string) (a : ndarray)
  (l : nat) (h : list ndarray) :
  h !! l = Some a -> wf_array a -> shape a <> [] ->
  exists hG,
    dummy_gather rt (dummyMPI.Intracomm name) (VArr l) 0 h
      = Returned (VSeq KList [VArr (length hG)]) (hG ++ [a]).
Proof.
  intros Hl Hwf Hne. unfold dummy_gather.
  change (dummyMPI.Get_rank (dummyMPI.Intracomm name)) with 0%nat.
  change (dummyMPI.Get_size (dummyMPI.Intracomm name)) with 1%nat.
  unfold BufferComm.gather. rewrite Hl. unfold gather_array.
  cbn [run_dummy propagate]. unfold dummyMPI.gather, gather_shaped.
  destruct (replace_empty_spec rt a l h Hl) as (ph & E & L).
  destruct (replace_empty rt a l h) as [lobj h']. simpl in E, L. subst h'.
  rewrite L. rewrite decide_True by done.
  change (VSeq KList [shape_val (shape a)])
    with (VSeq KList (shape_val <$> [shape a])).
  rewrite decode_shapes_vals.
  change (np_max_axis0 [shape a]) with (Ok (A := list nat) (shape a)).
  cbn match. rewrite (ShapeFacts.np_product_int _ Hne).
  unfold gather_recv. cbn [alloc]. rewrite send_object_dtype.
  set (hb := h ++ ph).
  set (buff := np_empty rt [1%nat; product (shape a)] (dtype_of a)).
  replace ((hb ++ [buff]) ++ [ravel (send_object rt a)])
    with (hb ++ [buff; ravel (send_object rt a)])
    by (by rewrite <- (assoc_L (++))).
  replace (length (hb ++ [buff])) with (S (length hb))
    by (rewrite length_app; simpl; lia).
  cbn [run_dummy from_option].
  unfold dummyMPI.Gatherv, dummyMPI._scatter_gather.
  cbn [dummyMPI._get_buffer mbind result_bind].
  assert (Hb : (hb ++ [buff; ravel (send_object rt a)]) !! length hb
               = Some buff).
  { by rewrite lookup_app_r, Nat.sub_diag by lia. }
  assert (Hs : (hb ++ [buff; ravel (send_object rt a)]) !! S (length hb)
               = Some (ravel (send_object rt a))).
  { rewrite lookup_app_r by lia.
    by replace (S (length hb) - length hb)%nat with 1%nat by lia. }
  rewrite Hb. unfold dummyMPI.payload_array. rewrite Hs.
  destruct (dummy_row rt a Hwf) as (newd & Hset & Htake).
  fold buff in Hset. rewrite Hset. cbn [mbind result_bind propagate].
  unfold gather_receiver_end.
  assert (Hins : <[length hb := NDArray [1%nat; product (shape a)]
                                  (dtype_of a) newd]>
                   (hb ++ [buff; ravel (send_object rt a)])
                 = hb ++ [NDArray [1%nat; product (shape a)] (dtype_of a) newd;
                          ravel (send_object rt a)]).
  { replace (length hb) with (length hb + 0)%nat at 1 by lia.
    by rewrite insert_app_r. }
  rewrite Hins. rewrite lookup_app_r by lia. rewrite Nat.sub_diag.
  cbn [lookup list_lookup].
  change (rows (NDArray [1%nat; product (shape a)] (dtype_of a) newd))
    with ((fun b => NDArray [product (shape a)] (dtype_of a) b)
            <$> [take (product [product (shape a)]) newd]).
  change [shape a] with (shape <$> [a]).
  rewrite (arr_list_spec (product (shape a)) (dtype_of a)
             [take (product [product (shape a)]) newd] [a]).
  - eexists. unfold gathered_arrays. simpl. by destruct a.
  - by repeat constructor.
Qed.

(** C2 (failing input): arrays of different numbers of dimensions,
    shapes [(1, 3)] and [(2,)]: [np.max] cannot make an array of the
    gathered shapes and the root raises [ValueError] in place of
    returning the list. *)
Lemma gather_arrays_returns_counterexample :
  Forall2 holds_array Examples.inputs_ragged
    [NDArray [1%nat; 3%nat] Float64 [1; 2; 3]; Examples.full2] /\
  run Examples.tr0 2 (group_gather Examples.rt0 0 Examples.inputs_ragged)
    !! 0%nat
    = Some (Raised ValueError [NDArray [1%nat; 3%nat] Float64 [1; 2; 3]]).
Proof.
  split; [|reflexivity]. repeat constructor; by exists 0%nat.
Qed.

(** A process alone that gathers an array of no dimension does not return
    the list of one array: [np.product] of the empty maximum of the shapes
    is the float [1.0], which [np.empty] refuses in the shape of the
    buffer, and the root raises [TypeError], on the transport and through
    the wrapper of a dummy communicator alike. *)
Lemma gather_scalar_raises (rt : runtime) (name : string) (d : dtype)
  (z : Z) :
  run Examples.tr0 2 (group_gather Examples.rt0 0 Examples.inputs_scalar1)
    = [Raised TypeError [Examples.scalar5]] /\
  dummy_gather rt (dummyMPI.Intracomm name) (VArr 0%nat) 0 [NDArray [] d [z]]
    = Raised TypeError [NDArray [] d [z]].
Proof. split; reflexivity. Qed.

(** C3 (failing input): in a group of two that gathers arrays of no
    dimension, which satisfy the gather invariant, the root allocates no
    buffer and makes no typed gather: it raises [TypeError] with its store
    as it was, and the other process waits at its [Gatherv]. *)
Theorem gather_scalars_no_buffer :
  run Examples.tr0 2 (group_gather Examples.rt0 0 Examples.inputs_scalar2)
    = [Raised TypeError [Examples.scalar5]; Blocked] /\
  Nat.iter 1 (step Examples.tr0)
    (group_gather Examples.rt0 0 Examples.inputs_scalar2) !! 0%nat
    = Some (Throw TypeError [Examples.scalar5]).
Proof. split; reflexivity. Qed.

(** C4, for arrays that have one number of dimensions and one element
    type, with along every axis a nonzero extent on some process (the
    shapes being within the ceiling of the generic gather): a process
    whose array has an empty dimension sends, in the typed gather, the
    flattened dummy of one element, of the element type of its array and
    with as many dimensions, each of extent 1; the shape it contributed to
    the gather of shapes is the shape of its array; and the entry of the
    root's result for that process is equal to its array: it has that
    shape and no element. *)
Theorem gather_empty_dimension (tr : transport) (rt : runtime) (root : nat)
  (inputs : list (pyval * list ndarray)) (arrays : list ndarray) (d : nat)
  (z : nat) (x : pyval * list ndarray) (a ar : ndarray) (fuel : nat) :
  Forall2 holds_array inputs arrays ->
  Forall wf_array arrays ->
  Forall (fun a => length (shape a) = S d) arrays ->
  Forall (fun a => dtype_of a = dtype_of ar) arrays ->
  (1 <= row_capacity (shape <$> arrays))%nat ->
  Forall (fun a => oversized tr (shape_pickle (shape a)) = false) arrays ->
  inputs !! z = Some x -> arrays !! z = Some a ->
  arrays !! root = Some ar ->
  np_all (shape a) = false -> (2 <= fuel)%nat ->
  (shape (send_object rt a) = replicate (length (shape a)) 1%nat /\
   dtype_of (send_object rt a) = dtype_of a /\
   length (data (send_object rt a)) = 1%nat) /\
  (group_gather rt root inputs !! z ≫= sent_pickle
     = Some (shape_pickle (shape a))) /\
  (exists ls recvbuf h1 k,
     Nat.iter 1 (step tr) (group_gather rt root inputs) !! z
       = Some (Call (Gatherv ls recvbuf root) h1 k) /\
     h1 !! ls = Some (ravel (send_object rt a))) /\
  (exists hG,
     run tr fuel (group_gather rt root inputs) !! root =
       Some (Returned (VSeq KList (VArr <$> seq (length hG) (length arrays)))
               (hG ++ arrays)) /\
     (hG ++ arrays) !! (length hG + z)%nat = Some a /\
     product (shape a) = 0%nat /\ data a = []).
Proof.
  intros Harr Hwf Hdim Hdt Hroom Hfit Hx Ha Har Hzero Hfuel.
  assert (Hroot : (root < length inputs)%nat).
  { rewrite <- (arrays_length inputs arrays Harr). by eapply lookup_lt_Some. }
  pose proof (Forall2_lookup_lr _ _ _ _ _ _ Harr Hx Ha) as Hxa.
  pose proof (ShapeFacts.np_all_false_product _ Hzero) as Hprod.
  split_and!.
  - unfold send_object. by rewrite Hzero.
  - apply send_object_dtype.
  - unfold send_object. rewrite Hzero, np_empty_length.
    clear. induction (length (shape a)) as [|n IH]; simpl; [done|].
    rewrite IH. done.
  - unfold group_gather. rewrite list_lookup_imap, Hx. simpl.
    rewrite (gather_array_call rt root inputs z x a Hxa). simpl.
    apply pickle_shape_val.
  - simpl. rewrite (gather_arrays_step1 tr rt root inputs arrays) by done.
    rewrite list_lookup_imap, Hx. simpl.
    destruct (decide (z = root)) as [->|Hz].
    + destruct (shaped_receiver rt root inputs arrays d Harr Hdim Hroot x a Hxa)
        as (hb & ->).
      eexists _, _, _, _. split; [done|].
      rewrite lookup_app_r by lia.
      by replace (S (length hb) - length hb)%nat with 1%nat by lia.
    + destruct (shaped_sender rt root arrays z x a Hz Hxa)
        as (h1 & ls & -> & Hls).
      by eexists _, _, _, _.
  - destruct (lookup_lt_is_Some_2 inputs root Hroot) as [xr Hxr].
    destruct (gathered_receiver tr rt root inputs arrays d Harr Hdim Hroot
                xr ar Hwf Hdt Hroom Hxr Har) as (hG & HG).
    rewrite (gathered_arrays_same _ _ Hdt) in HG.
    exists hG.
    rewrite (gather_arrays_run tr rt root inputs arrays d Harr Hdim Hroot
               Hfit ar fuel) by done.
    rewrite (finish_imap_lookup _ _ _ _ Hxr), HG.
    split_and!; [done | | done |].
    + rewrite lookup_app_r by lia.
      by replace (length hG + z - length hG)%nat with z by lia.
    + rewrite Forall_lookup in Hwf. specialize (Hwf z a Ha).
      unfold wf_array in Hwf. rewrite Hprod in Hwf.
      by apply nil_length_inv.
Qed.

(** C4 (failing input): a process with an array of shape [(0,)] and a
    root with an array of shape [(1, 3)]: the numbers of dimensions
    differ, [np.max] cannot make an array of the gathered shapes, and the
    root raises [ValueError] in place of returning a list with an entry
    of shape [(0,)]. *)
Lemma gather_empty_dimension_counterexample :
  Forall2 holds_array Examples.inputs_empty_ragged
    [Examples.empty1; NDArray [1%nat; 3%nat] Float64 [1; 2; 3]] /\
  np_all (shape Examples.empty1) = false /\
  run Examples.tr0 2
    (group_gather Examples.rt0 1 Examples.inputs_empty_ragged) !! 1%nat
    = Some (Raised ValueError [NDArray [1%nat; 3%nat] Float64 [1; 2; 3]]).
Proof.
  split_and!; [|reflexivity|reflexivity].
  repeat constructor; by exists 0%nat.
Qed.

(** C1, with the ceiling of the generic primitive taken into account:
    whenever the generic message of the root (the descriptor of an array,
    or [[type name, payload]]) is within the ceiling, every process of
    the group returns.  For an array, the root broadcasts the descriptor
    through [bcast] and then the buffer through [Bcast] and returns its own
    object in its unchanged store; every other process, after the
    descriptor, is at [Bcast] with a new array of the shape and element
    type of the root's, and returns that new object, which is then equal to
    the root's array.  For any other payload the root broadcasts
    [[type name, payload]] and returns its own object; every other process
    returns what it unpickled, whose contents are the payload's. *)
Theorem bcast_returns_payload (tr : transport) (rt : runtime) (root : nat)
  (inputs : list (pyval * list ndarray)) (obj : pyval) (hr : list ndarray)
  (fuel : nat) :
  inputs !! root = Some (obj, hr) -> (2 <= fuel)%nat ->
  (forall l a, obj = VArr l -> hr !! l = Some a -> wf_array a ->
     oversized tr (descriptor a) = false ->
     BufferComm.bcast rt root obj root hr =
       Call (Transport.bcast (descriptor_val a) root) hr
         (propagate (fun _ h =>
          Call (Transport.Bcast l root) h
            (propagate (fun _ h => Return obj h)))) /\
     Nat.iter 1 (step tr) (group_bcast rt root inputs)
       = imap (array_announced rt root l hr a) inputs /\
     forall i x, inputs !! i = Some x ->
       run tr fuel (group_bcast rt root inputs) !! i =
         Some (if decide (i = root) then Returned obj hr
               else Returned (VArr (length x.2)) (x.2 ++ [a]))) /\
  (forall m, (forall l, obj <> VArr l) -> pickle hr obj = Some m ->
     oversized tr (generic_message obj m) = false ->
     BufferComm.bcast rt root obj root hr =
       Call (Transport.bcast (VSeq KList [VStr (class_name obj); obj]) root)
         hr (bcast_sender_except rt obj) /\
     forall i x, inputs !! i = Some x ->
       exists v h',
         run tr fuel (group_bcast rt root inputs) !! i
           = Some (Returned v h') /\
         (i = root -> v = obj /\ h' = hr) /\
         (i <> root ->
            (v, h') = unpickle m x.2 /\ pickle h' v = Some m /\
            exists new, h' = x.2 ++ new)).
Proof.
  intros Hroot Hfuel. split.
  - intros l a -> Hl Hwf Hfit. split_and!.
    + unfold BufferComm.bcast. rewrite decide_True by done.
      unfold bcast_sender. by rewrite Hl.
    + simpl. by apply bcast_array_step1.
    + intros i x Hx.
      rewrite (bcast_array_run tr rt root inputs l hr a) by (done || lia).
      rewrite (finish_imap_lookup _ _ _ _ Hx). unfold array_received.
      by destruct (decide (i = root)).
  - intros m Hobj Hm Hfit. split.
    + unfold BufferComm.bcast. rewrite decide_True by done.
      by apply bcast_sender_generic.
    + intros i x Hx.
      rewrite (bcast_generic_run tr rt root inputs obj hr m) by (done || lia).
      rewrite (finish_imap_lookup _ _ _ _ Hx). unfold generic_received.
      destruct (decide (i = root)) as [->|Hi].
      * exists obj, hr. by split_and!.
      * destruct (unpickle_spec m x.2) as (new & E & P).
        destruct (unpickle m x.2) as [v h'] eqn:Hu. simpl in E, P.
        exists v, h'. split_and!; [done | done |]. intros _.
        subst h'. split_and!; [done | done |]. by exists new.
Qed.

Lemma bcast_returns_payload_witness :
  Examples.inputs3 !! 1%nat = Some (VArr 0%nat, [Examples.a23]) /\
  (2 <= 2)%nat /\
  [Examples.a23] !! 0%nat = Some Examples.a23 /\
  wf_array Examples.a23 /\
  oversized Examples.tr0 (descriptor Examples.a23) = false /\
  run Examples.tr0 2 (group_bcast Examples.rt0 1 Examples.inputs3) !! 2%nat
    = Some (Returned (VArr 1%nat) (Examples.h0 ++ [Examples.a23])).
Proof.
  split_and!; [reflexivity | lia | reflexivity | reflexivity | reflexivity |].
  destruct (bcast_returns_payload Examples.tr0 Examples.rt0 1 Examples.inputs3
              (VArr 0%nat) [Examples.a23] 2 eq_refl (le_n 2)) as [Harr _].
  destruct (Harr 0%nat Examples.a23 eq_refl eq_refl eq_refl eq_refl)
    as (_ & _ & Hrun).
  exact (Hrun 2%nat (VInt 5, Examples.h0) eq_refl).
Defined.

Lemma huge_oversized :
  oversized Examples.tr0
    (generic_message (VInt Examples.huge) (PInt Examples.huge)) = true.
Proof.
  unfold oversized. apply bool_decide_eq_true_2.
  unfold generic_message. cbn [pickled_size Examples.tr0 Examples.bytes foldr class_name].
  assert (H : Z.log2 (Z.abs Examples.huge) = 2 ^ 35).
  { unfold Examples.huge. rewrite Z.abs_eq by (apply Z.pow_nonneg; done).
    apply Z.log2_pow2. done. }
  rewrite H. unfold ceiling. done.
Qed.

(** On an [int] of [2 ^ 35] bits the root of a broadcast does not return:
    it raises, and the other process waits. *)
Lemma bcast_returns_payload_counterexample :
  Examples.inputs_huge !! 0%nat = Some (VInt Examples.huge, []) /\
  run Examples.tr0 2 (group_bcast Examples.rt0 0 Examples.inputs_huge)
    = [Raised (InputError size_message
                 [sizeof Examples.rt0 [] (VInt Examples.huge); 2 ^ 31 - 1]) [];
       Blocked].
Proof.
  split; [reflexivity|].
  rewrite (bcast_oversized_run Examples.tr0 Examples.rt0 0
             Examples.inputs_huge (VInt Examples.huge) [] (PInt Examples.huge));
    [reflexivity | reflexivity | done | reflexivity | apply huge_oversized | lia].
Qed.




Lemma gather_arrays_returns_witness :
  Forall2 holds_array Examples.inputs253 Examples.arrays253 /\
  Forall (fun a => dtype_of a = Float64) Examples.arrays253 /\
  (1 <= row_capacity (shape <$> Examples.arrays253))%nat /\
  exists hG,
    run Examples.tr0 2 (group_gather Examples.rt0 0 Examples.inputs253)
      !! 0%nat =
      Some (Returned (VSeq KList (VArr <$> seq (length hG) 3))
              (hG ++ Examples.arrays253)) /\
    (hG ++ Examples.arrays253) !! (length hG + 1)%nat
      = Some (NDArray [5%nat] Float64 [3; 4; 5; 6; 7]) /\
    exists h1,
      run Examples.tr0 2 (group_gather Examples.rt0 0 Examples.inputs253)
        !! 2%nat = Some (Returned VNone h1).
Proof.
  assert (Harr : Forall2 holds_array Examples.inputs253 Examples.arrays253).
  { repeat constructor; by exists 0%nat. }
  assert (Hwf : Forall wf_array Examples.arrays253) by (repeat constructor).
  assert (Hdim : Forall (fun a => length (shape a) = 1%nat)
                   Examples.arrays253) by (repeat constructor).
  assert (Hdt : Forall (fun a => dtype_of a = Float64) Examples.arrays253)
    by (repeat constructor).
  assert (Hroom : (1 <= row_capacity (shape <$> Examples.arrays253))%nat)
    by (vm_compute; lia).
  assert (Hfit : Forall (fun a => oversized Examples.tr0
                                    (shape_pickle (shape a)) = false)
                   Examples.arrays253) by (repeat constructor).
  split_and!; [exact Harr | exact Hdt | exact Hroom |].
  destruct (gather_arrays_returns Examples.tr0 Examples.rt0 0
              Examples.inputs253 Examples.arrays253 0
              (NDArray [2%nat] Float64 [1; 2]) 2 Harr Hwf Hdim Hdt Hroom
              Hfit eq_refl (le_n 2)) as ((hG & Hrun & Hentry) & Hothers).
  exists hG. split_and!; [exact Hrun | exact (Hentry 1%nat _ eq_refl) |].
  exact (Hothers 2%nat (VArr 0%nat, [NDArray [3%nat] Float64 [8; 9; 10]])
           eq_refl ltac:(done)).
Defined.

Lemma gather_empty_dimension_witness :
  Forall2 holds_array Examples.inputs_empty [Examples.empty1; Examples.full2]
  /\ np_all (shape Examples.empty1) = false
  /\ (1 <= row_capacity
              (shape <$> [Examples.empty1; Examples.full2]))%nat
  /\ exists hG,
     run Examples.tr0 2 (group_gather Examples.rt0 1 Examples.inputs_empty)
       !! 1%nat =
       Some (Returned (VSeq KList (VArr <$> seq (length hG) 2))
               (hG ++ [Examples.empty1; Examples.full2])) /\
     (hG ++ [Examples.empty1; Examples.full2])
       !! (length hG + 0)%nat = Some (NDArray [0%nat] Float64 []).
Proof.
  assert (Harr : Forall2 holds_array Examples.inputs_empty
                   [Examples.empty1; Examples.full2]).
  { repeat constructor; by exists 0%nat. }
  assert (Hwf : Forall wf_array [Examples.empty1; Examples.full2])
    by (repeat constructor).
  assert (Hdim : Forall (fun a => length (shape a) = 1%nat)
                   [Examples.empty1; Examples.full2])
    by (repeat constructor).
  assert (Hdt : Forall (fun a => dtype_of a = Float64)
                  [Examples.empty1; Examples.full2])
    by (repeat constructor).
  assert (Hroom : (1 <= row_capacity
                          (shape <$> [Examples.empty1; Examples.full2]))%nat)
    by (vm_compute; lia).
  assert (Hfit : Forall (fun a => oversized Examples.tr0
                                    (shape_pickle (shape a)) = false)
                   [Examples.empty1; Examples.full2])
    by (repeat constructor).
  split_and!; [exact Harr | reflexivity | exact Hroom |].
  destruct (gather_empty_dimension Examples.tr0 Examples.rt0 1
              Examples.inputs_empty [Examples.empty1; Examples.full2]
              0 0 (VArr 0%nat, [Examples.empty1]) Examples.empty1
              Examples.full2 2 Harr Hwf Hdim Hdt Hroom Hfit eq_refl eq_refl
              eq_refl eq_refl (le_n 2))
    as (_ & _ & _ & hG & Hrun & Hentry & _).
  exists hG. split; [exact Hrun | exact Hentry].
Defined.

End BufferCommFacts.

(** ** More on the dummy layer *)

Module dummyMPIMore.
Import dummyMPI dummyMPIObject.

Lemma prefix_append (p s : string) : String.prefix p (p +:+ s) = true.
Proof.
  induction p as [|a p IH]; simpl; [by destruct s|].
  destruct (Ascii.ascii_dec a a); [done | congruence].
Qed.

(** Every dummy intra-communicator that [Intracomm(name)] makes has rank
    0, size 1 and a name that starts with [dummyMPI_]; making one from the
    name of one that exists gives an equal object; the property setter
    stores any [str] as it is and refuses anything else, as does the
    constructor. *)
Theorem Intracomm_new_invariant (name : pyval) (c : Comm) :
  Intracomm_new name = Ok c ->
  String.prefix "dummyMPI_" (Get_name c) = true /\
  Get_rank c = 0%nat /\ Get_size c = 1%nat /\
  Intracomm_new (VStr (Get_name c)) = Ok c /\
  (forall s, Get_name <$> name_setter c (VStr s) = Ok s) /\
  (forall v, (forall s, v <> VStr s) ->
     name_setter c v = Raise TypeError /\ Intracomm_new v = Raise TypeError).
Proof.
  intros Hnew. destruct name as [| |s| | |]; try done.
  injection Hnew as <-. unfold Comm_init, Get_name. cbn [_name].
  assert (Hp : String.prefix "dummyMPI_"
                 (if String.prefix "dummyMPI_" s then s
                  else "dummyMPI_" +:+ s) = true).
  { destruct (String.prefix "dummyMPI_" s) eqn:E; [done|].
    apply prefix_append. }
  split_and!; [done | done | done | | done |].
  - unfold Intracomm_new, Comm_init. by rewrite Hp.
  - intros v Hv. destruct v; try done. by destruct (Hv s0).
Qed.

Lemma Intracomm_new_invariant_witness :
  Intracomm_new (VStr "COMM_WORLD") = Ok (Intracomm "COMM_WORLD") /\
  Get_name (Intracomm "COMM_WORLD") = "dummyMPI_COMM_WORLD" /\
  String.prefix "dummyMPI_" (Get_name (Intracomm "COMM_WORLD")) = true.
Proof.
  split_and!; [reflexivity | reflexivity |].
  apply (Intracomm_new_invariant (VStr "COMM_WORLD")). reflexivity.
Defined.

(** Of a list or tuple given as send buffer only the first item counts:
    the rest, and whether it is a list or a tuple, changes nothing; an
    empty list or tuple, as send or as receive buffer, is an
    [IndexError], in the buffer collectives, in [reduce] and in
    [scatter]. *)
Theorem sequence_buffers (rt : runtime) (k k' : seqkind) (x : pyval)
  (rest rest' : list pyval) (recvbuf : pyval) (h : list ndarray) :
  _scatter_gather rt (VSeq k (x :: rest)) recvbuf h
    = _scatter_gather rt (VSeq k' (x :: rest')) recvbuf h /\
  reduce rt (VSeq k (x :: rest)) h = Ok (copy x h) /\
  _scatter_gather rt (VSeq k []) recvbuf h = Raise IndexError /\
  _scatter_gather rt (VSeq k (x :: rest)) (VSeq k' []) h = Raise IndexError /\
  reduce rt (VSeq k []) h = Raise IndexError /\
  scatter rt (VSeq k []) h = Raise IndexError.
Proof. by split_and!. Qed.

Lemma length_concat_uniform (n : nat) (ls : list (list Z)) :
  Forall (fun l => length l = n) ls ->
  length (concat ls) = (length ls * n)%nat.
Proof.
  induction 1 as [|l ls Hl _ IH]; simpl; [done|].
  rewrite length_app, IH, Hl. lia.
Qed.

(** Broadcasting gives as many elements as the target shape holds. *)
Lemma broadcast_data_length (ss : list nat) :
  forall rs d d', length d = product ss ->
    broadcast_data ss rs d = Some d' -> length d' = product rs.
Proof.
  induction ss as [|s ss IH]; intros [|r rs] d d' Hd Hb; simpl in Hb;
    try done.
  - by injection Hb as <-.
  - simpl in Hd. destruct (decide (s = r)) as [->|Hsr].
    + destruct (mapM (broadcast_data ss rs) (chunks r (product ss) d))
        as [ys|] eqn:Hys; [|done].
      simpl in Hb. injection Hb as <-.
      apply mapM_Some in Hys.
      rewrite (length_concat_uniform (product rs)).
      * rewrite <- (Forall2_length _ _ _ Hys), StoreFacts.chunks_length.
        done.
      * pose proof (StoreFacts.chunks_rows r (product ss) d Hd) as Hrows.
        clear Hd. induction Hys as [|c y cs ys Hcy _ IHys]; [done|].
        apply Forall_cons in Hrows as [Hc Hrows].
        constructor; [by eapply IH | by apply IHys].
    + destruct (decide (s = 1%nat)) as [->|]; [|done].
      destruct (broadcast_data ss rs d) as [row|] eqn:Hrow; [|done].
      simpl in Hb. injection Hb as <-.
      rewrite (length_concat_uniform (product rs)).
      * by rewrite length_replicate.
      * apply Forall_replicate. eapply IH; [|done]. lia.
Qed.

Lemma align_shape_length (n : nat) (ss ss' : list nat) :
  align_shape n ss = Some ss' ->
  length ss' = n /\ product ss' = product ss.
Proof.
  unfold align_shape. destruct (decide (length ss <= n)%nat) as [Hle|Hgt].
  - intros [= <-]. rewrite length_app, length_replicate. split; [lia|].
    induction (n - length ss)%nat as [|m IH]; simpl; [done|]. lia.
  - assert (forall k ts ts', strip_ones k ts = Some ts' ->
              length ts = (k + length ts')%nat /\ product ts' = product ts)
      as Hstrip.
    { induction k as [|k IH]; intros ts ts' Hs; simpl in Hs.
      - injection Hs as <-. done.
      - destruct ts as [|[|[|t]] ts]; try done.
        destruct (IH _ _ Hs) as [H1 H2]. simpl. split; lia. }
    intros Hs. destruct (Hstrip _ _ _ Hs). split; lia.
Qed.

(** The slice assignment keeps the shape, the element type and the
    number of elements of the target. *)
Lemma setitem_all_keeps (rt : runtime) (dst src new : ndarray) :
  setitem_all rt dst (Ok src) = Ok new ->
  shape new = shape dst /\ dtype_of new = dtype_of dst /\
  (wf_array src -> wf_array new).
Proof.
  unfold setitem_all. destruct (decide (shape dst = [])); [done|].
  cbn [mbind result_bind].
  destruct (align_shape _ _) as [ss|] eqn:Ha; [|done].
  destruct (broadcast_data _ _ _) as [d|] eqn:Hb; [|done].
  intros [= <-]. split_and!; [done | done |].
  intros Hwf. unfold wf_array in *. cbn [data shape].
  rewrite length_map. destruct (align_shape_length _ _ _ Ha) as [_ Hp].
  eapply broadcast_data_length; [|done]. by rewrite Hp.
Qed.

(** A buffer collective with an array as receive buffer returns that
    array object and changes nothing of the store but its contents: no
    object is added, every other object is as it was, and the receive
    buffer keeps its shape and element type, and its number of elements
    when the payload array held as many elements as its shape says. *)
Theorem scatter_gather_frame (rt : runtime) (sendbuf recvbuf v : pyval)
  (h h' : list ndarray) (l : nat) (dst : ndarray) :
  _get_buffer recvbuf = Ok (VArr l) -> h !! l = Some dst ->
  _scatter_gather rt sendbuf recvbuf h = Ok (v, h') ->
  v = VArr l /\ length h' = length h /\
  (forall l', l' <> l -> h' !! l' = h !! l') /\
  exists new,
    h' !! l = Some new /\
    shape new = shape dst /\ dtype_of new = dtype_of dst /\
    (forall payload src, _get_buffer sendbuf = Ok payload ->
       payload_array rt h payload = Ok src -> wf_array src -> wf_array new).
Proof.
  intros Hrecv Hl. unfold _scatter_gather.
  destruct (_get_buffer sendbuf) as [payload|] eqn:Hsend; [|done].
  rewrite Hrecv. cbn [mbind result_bind]. rewrite Hl.
  destruct (payload_array rt h payload) as [src|] eqn:Hsrc;
    [|unfold setitem_all; by destruct (decide (shape dst = []))].
  destruct (setitem_all rt dst (Ok src)) as [new|] eqn:Hset; [|done].
  cbn [mbind result_bind]. intros [= <- <-].
  destruct (setitem_all_keeps rt dst src new Hset) as (Hs & Hd & Hwf).
  split_and!; [done | by rewrite length_insert | |].
  - intros l' Hl'. by rewrite list_lookup_insert_ne.
  - exists new. split_and!; [|done|done|].
    + apply list_lookup_insert_eq. by eapply lookup_lt_Some.
    + intros payload' src' [= <-] Hsrc' Hwf'.
      assert (src' = src) as -> by congruence. by apply Hwf.
Qed.

Lemma scatter_gather_frame_witness :
  _get_buffer (VArr 0%nat) = Ok (VArr 0%nat) /\
  [Examples.full2; Examples.full2] !! 0%nat = Some Examples.full2 /\
  _scatter_gather Examples.rt0 (VArr 1%nat) (VArr 0%nat)
    [Examples.full2; Examples.full2]
    = Ok (VArr 0%nat, [Examples.full2; Examples.full2]) /\
  length [Examples.full2; Examples.full2] = 2%nat.
Proof.
  assert (Hrun : _scatter_gather Examples.rt0 (VArr 1%nat) (VArr 0%nat)
                   [Examples.full2; Examples.full2]
                 = Ok (VArr 0%nat, [Examples.full2; Examples.full2]))
    by reflexivity.
  split_and!; [reflexivity | reflexivity | exact Hrun |].
  destruct (scatter_gather_frame Examples.rt0 (VArr 1%nat) (VArr 0%nat)
              (VArr 0%nat) [Examples.full2; Examples.full2]
              [Examples.full2; Examples.full2] 0 Examples.full2
              eq_refl eq_refl Hrun) as (_ & Hlen & _).
  exact Hlen.
Defined.

(** A one-dimensional array cannot be received into a one-dimensional
    array of another length, unless it has one element: the collective
    raises [ValueError]. *)
Theorem scatter_gather_length_mismatch (rt : runtime) (h : list ndarray)
  (ls l n c : nat) (src dst : ndarray) :
  h !! ls = Some src -> h !! l = Some dst ->
  shape src = [n] -> shape dst = [c] -> n <> c -> n <> 1%nat ->
  _scatter_gather rt (VArr ls) (VArr l) h = Raise ValueError.
Proof.
  intros Hs Hd Hss Hsd Hnc Hn1. unfold _scatter_gather.
  cbn [_get_buffer mbind result_bind]. rewrite Hd.
  unfold payload_array. rewrite Hs.
  unfold setitem_all. rewrite Hsd.
  rewrite decide_False by done. cbn [mbind result_bind]. rewrite Hss.
  change (align_shape (length [c]) [n]) with (Some [n]).
  cbn [broadcast_data]. rewrite decide_False by done.
  by rewrite decide_False by done.
Qed.

Lemma scatter_gather_length_mismatch_witness :
  [Examples.full2; NDArray [3%nat] Float64 [7; 8; 9]] !! 0%nat
    = Some Examples.full2 /\
  _scatter_gather Examples.rt0 (VArr 0%nat) (VArr 1%nat)
    [Examples.full2; NDArray [3%nat] Float64 [7; 8; 9]] = Raise ValueError.
Proof.
  split; [reflexivity|].
  apply (scatter_gather_length_mismatch Examples.rt0 _ 0 1 2 3
           Examples.full2 (NDArray [3%nat] Float64 [7; 8; 9]));
    (reflexivity || lia).
Defined.

Lemma product_ones (n : nat) : product (replicate n 1%nat) = 1%nat.
Proof. induction n as [|n IH]; simpl; [done|]. by rewrite IH. Qed.

Lemma concat_replicate_replicate (r n : nat) (v : Z) :
  concat (replicate r (replicate n v)) = replicate (r * n) v.
Proof.
  induction r as [|r IH]; simpl; [done|].
  by rewrite IH, replicate_add.
Qed.

Lemma broadcast_data_ones (v : Z) (rs : list nat) :
  broadcast_data (replicate (length rs) 1%nat) rs [v]
    = Some (replicate (product rs) v).
Proof.
  induction rs as [|r rs IH]; [done|]. cbn [length replicate broadcast_data].
  destruct (decide (1%nat = r)) as [<-|Hr].
  - rewrite product_ones. cbn [chunks take mapM].
    rewrite IH. simpl. by rewrite !app_nil_r, Nat.add_0_r.
  - rewrite decide_True by done. rewrite IH. simpl.
    by rewrite concat_replicate_replicate.
Qed.

(** An array of one element, of shape [(1,)], received into an array of
    any shape of at least one dimension fills it: every element of the
    receive buffer becomes that element, converted to the element type of
    the buffer. *)
Theorem scatter_gather_fill (rt : runtime) (h : list ndarray)
  (ls l : nat) (src dst : ndarray) (v : Z) :
  h !! ls = Some src -> h !! l = Some dst -> shape dst <> [] ->
  shape src = [1%nat] -> data src = [v] ->
  _scatter_gather rt (VArr ls) (VArr l) h =
    Ok (VArr l,
        <[l := NDArray (shape dst) (dtype_of dst)
                 (replicate (product (shape dst))
                    (astype rt (dtype_of src) (dtype_of dst) v))]> h).
Proof.
  intros Hs Hd Hne Hss Hds. unfold _scatter_gather.
  cbn [_get_buffer mbind result_bind]. rewrite Hd.
  unfold payload_array. rewrite Hs.
  unfold setitem_all. rewrite decide_False by done.
  cbn [mbind result_bind]. rewrite Hss, Hds.
  assert (Ha : align_shape (length (shape dst)) [1%nat]
               = Some (replicate (length (shape dst)) 1%nat)).
  { unfold align_shape. cbn [length].
    destruct (shape dst) as [|r rs]; [done|]. cbn [length].
    rewrite decide_True by lia.
    replace (S (length rs) - 1)%nat with (length rs) by lia.
    f_equal. clear. induction (length rs) as [|n IH]; [done|].
    simpl in *. by rewrite IH. }
  rewrite Ha, broadcast_data_ones. cbn [mbind result_bind].
  do 3 f_equal. f_equal. clear.
  induction (product (shape dst)) as [|n IH]; simpl; [done|]. by rewrite IH.
Qed.

Lemma scatter_gather_fill_witness :
  [NDArray [1%nat] Float64 [7]; Examples.a23] !! 1%nat = Some Examples.a23 /\
  _scatter_gather Examples.rt0 (VArr 0%nat) (VArr 1%nat)
    [NDArray [1%nat] Float64 [7]; Examples.a23] =
    Ok (VArr 1%nat,
        [NDArray [1%nat] Float64 [7];
         NDArray [2%nat; 3%nat] Int64 [7; 7; 7; 7; 7; 7]]).
Proof.
  split; [reflexivity|].
  etransitivity;
    [apply (scatter_gather_fill Examples.rt0 _ 0 1
              (NDArray [1%nat] Float64 [7]) Examples.a23 7);
       (reflexivity || discriminate)
    | reflexivity].
Defined.

(** An array of at least one dimension received into itself is left as
    it is, and so is the whole store; an array of no dimension received
    into itself raises [IndexError]. *)
Theorem scatter_gather_self (rt : runtime) (h : list ndarray) (l : nat)
  (a : ndarray) :
  h !! l = Some a -> wf_array a ->
  _scatter_gather rt (VArr l) (VArr l) h =
    if decide (shape a = []) then Raise IndexError else Ok (VArr l, h).
Proof.
  intros Hl Hwf. unfold _scatter_gather.
  cbn [_get_buffer mbind result_bind]. rewrite Hl.
  unfold payload_array. rewrite Hl.
  destruct (decide (shape a = [])) as [He|Hne].
  { unfold setitem_all. by rewrite decide_True by done. }
  rewrite StoreFacts.setitem_all_same by done. cbn [mbind result_bind].
  rewrite BufferCommFacts.astype_same.
  replace (NDArray (shape a) (dtype_of a) (data a)) with a by (by destruct a).
  by rewrite list_insert_id.
Qed.

Lemma scatter_gather_self_witness :
  Examples.h0 !! 0%nat = Some Examples.full2 /\ wf_array Examples.full2 /\
  _scatter_gather Examples.rt0 (VArr 0%nat) (VArr 0%nat) Examples.h0
    = Ok (VArr 0%nat, Examples.h0).
Proof.
  split_and!; [reflexivity | reflexivity |].
  exact (scatter_gather_self Examples.rt0 Examples.h0 0 Examples.full2
           eq_refl eq_refl).
Defined.

(** A deep copy copies an array once however often the copied value
    holds it: the copy of a list or tuple with the same array twice holds
    one new array twice. *)
Theorem copy_keeps_sharing (k : seqkind) (l : nat) (a : ndarray)
  (h : list ndarray) :
  h !! l = Some a ->
  copy (VSeq k [VArr l; VArr l]) h
    = (VSeq k [VArr (length h); VArr (length h)], h ++ [a]).
Proof.
  intros Hl. unfold copy. cbn [deepcopy thread fst snd].
  rewrite lookup_empty, Hl. cbn [alloc fst snd].
  by rewrite lookup_insert_eq.
Qed.

Lemma copy_keeps_sharing_witness :
  Examples.h0 !! 0%nat = Some Examples.full2 /\
  copy (VSeq KList [VArr 0%nat; VArr 0%nat]) Examples.h0
    = (VSeq KList [VArr 1%nat; VArr 1%nat],
       Examples.h0 ++ [Examples.full2]).
Proof.
  split; [reflexivity|].
  apply (copy_keeps_sharing KList 0 Examples.full2 Examples.h0). reflexivity.
Defined.

End dummyMPIMore.

(** ** More on the registry *)

Module RegistryMore.
Import Registry RegistryInit RegistryFacts.

Lemma wrap_grows (comm : N) (st : state) :
  buffer_comm_registry st ⊆ buffer_comm_registry (wrap comm st).2 /\
  objects st ⊆ objects (wrap comm st).2 /\
  COMM_WORLD (wrap comm st).2 = COMM_WORLD st /\
  (size (buffer_comm_registry (wrap comm st).2)
     <= S (size (buffer_comm_registry st)))%nat.
Proof.
  unfold wrap.
  destruct (buffer_comm_registry st !! hex comm) eqn:Hreg;
    [by simpl; split_and!; [| | |lia]|].
  destruct (is_value st comm); [by simpl; split_and!; [| | |lia]|].
  cbn [snd buffer_comm_registry objects COMM_WORLD]. split_and!.
  - by apply insert_subseteq.
  - apply insert_subseteq, fresh_object.
  - done.
  - by rewrite map_size_insert_None.
Qed.

Lemma get_grows (comm : option N) (st : state) :
  buffer_comm_registry st
    ⊆ buffer_comm_registry (get_BufferComm_obj comm st).2 /\
  objects st ⊆ objects (get_BufferComm_obj comm st).2 /\
  COMM_WORLD (get_BufferComm_obj comm st).2 = COMM_WORLD st /\
  (size (buffer_comm_registry (get_BufferComm_obj comm st).2)
     <= S (size (buffer_comm_registry st)))%nat.
Proof.
  unfold get_BufferComm_obj. destruct comm as [comm|];
    [|apply wrap_grows].
  destruct (is_intracomm (class_of st comm)); [apply wrap_grows|].
  by simpl; split_and!; [| | |lia].
Qed.

(** The registry only grows: whatever the arguments of a sequence of
    calls of the factory, every entry and every object that was there is
    still there unchanged afterwards, [MPI.COMM_WORLD] is the same, and
    at most one entry per call has been added. *)
Theorem registry_grows (args : list (option N)) (st : state) :
  buffer_comm_registry st ⊆ buffer_comm_registry (calls args st) /\
  objects st ⊆ objects (calls args st) /\
  COMM_WORLD (calls args st) = COMM_WORLD st /\
  (size (buffer_comm_registry (calls args st))
     <= size (buffer_comm_registry st) + length args)%nat.
Proof.
  revert st. induction args as [|a args IH]; intros st.
  - simpl. by split_and!; [| | |lia].
  - destruct (get_grows a st) as (R1 & O1 & W1 & S1).
    destruct (IH (get_BufferComm_obj a st).2) as (R2 & O2 & W2 & S2).
    unfold calls in *. cbn [foldl length]. split_and!.
    + by etransitivity.
    + by etransitivity.
    + by rewrite W2.
    + lia.
Qed.

Lemma get_state_ok (comm : option N) (st : state) :
  state_ok st -> state_ok (get_BufferComm_obj comm st).2.
Proof.
  intros [Hok Hw].
  destruct (get_grows comm st) as (_ & Hobj & HW & _).
  split.
  - unfold get_BufferComm_obj. destruct comm as [comm|].
    + destruct (is_intracomm (class_of st comm)) eqn:Hcls; [|done].
      apply wrap_ok; [done | by apply intracomm_live | done].
    + apply wrap_ok; [done | by apply intracomm_live | done].
  - rewrite HW. unfold class_of in *.
    destruct (intracomm_live _ _ Hw) as [c Hc].
    by rewrite (lookup_weaken _ _ _ _ Hc Hobj), <- Hc.
Qed.

(** Whatever is given to the factory, and however often, the registry
    stays well formed and [MPI.COMM_WORLD] stays an intra-communicator:
    calls that raise [TypeError], calls for [None], and calls that hand a
    wrapper back are all included. *)
Theorem calls_keep_registry (args : list (option N)) (st : state) :
  state_ok st -> state_ok (calls args st).
Proof.
  revert st. induction args as [|a args IH]; intros st Hok; [done|].
  unfold calls in *. cbn [foldl]. by apply IH, get_state_ok.
Qed.

Lemma calls_keep_registry_witness :
  state_ok Examples.st0 /\
  state_ok (calls [Some 1%N; None; Some 7%N; Some 1%N] Examples.st0).
Proof.
  assert (H0 : state_ok Examples.st0).
  { split; [by apply registry_ok_empty | reflexivity]. }
  split; [done|].
  exact (calls_keep_registry [Some 1%N; None; Some 7%N; Some 1%N]
           Examples.st0 H0).
Defined.



(** On a well-formed registry no wrapper is shared: a wrapper stands
    under one key only, it is never the communicator it is registered
    for, and it is not a key of the registry itself. *)
Theorem wrappers_not_shared (st : state) (k1 k2 : string) (w : N) :
  registry_ok st ->
  buffer_comm_registry st !! k1 = Some w ->
  buffer_comm_registry st !! k2 = Some w ->
  k1 = k2 /\ k1 <> hex w /\ buffer_comm_registry st !! hex w = None.
Proof.
  intros (Hent & Hkey & _) H1 H2.
  destruct (Hent _ _ H1) as (c1 & b1 & -> & _ & O1 & _).
  destruct (Hent _ _ H2) as (c2 & b2 & -> & _ & O2 & _).
  pose proof (Hkey _ _ H1) as Hn.
  split_and!; [congruence | | done].
  intros E. rewrite E in H1. congruence.
Qed.

Lemma wrappers_not_shared_witness :
  registry_ok (calls [None] Examples.st0) /\
  buffer_comm_registry (calls [None] Examples.st0) !! hex 1%N
    = Some (fresh (dom (objects Examples.st0))) /\
  hex 1%N <> hex (fresh (dom (objects Examples.st0))) /\
  buffer_comm_registry (calls [None] Examples.st0)
    !! hex (fresh (dom (objects Examples.st0))) = None.
Proof.
  assert (H0 : state_ok Examples.st0).
  { split; [by apply registry_ok_empty | reflexivity]. }
  pose proof (get_state_ok None Examples.st0 H0) as [H1 _].
  assert (E : buffer_comm_registry (calls [None] Examples.st0) !! hex 1%N
              = Some (fresh (dom (objects Examples.st0)))) by reflexivity.
  split_and!; [exact H1 | exact E | |];
    apply (wrappers_not_shared (calls [None] Examples.st0) _ _ _ H1 E E).
Defined.

(** The default instances: in a process that starts with an empty
    registry and two different live intra-communicators [MPI.COMM_SELF]
    and [MPI.COMM_WORLD], the two calls at the end of the module make two
    different wrappers, one around each, and leave a registry of exactly
    these two entries; from then on the factory called with no argument,
    or with [MPI.COMM_WORLD], returns [BUFFER_COMM_WORLD], and called
    with [MPI.COMM_SELF] it returns [BUFFER_COMM_SELF], without changing
    anything. *)
Theorem default_instances_made
    (objs : gmap N pyclass) (COMM_SELF world : N) :
  COMM_SELF <> world ->
  is_intracomm (class_of (MkState objs ∅ world) COMM_SELF) = true ->
  is_intracomm (class_of (MkState objs ∅ world) world) = true ->
  exists BUFFER_COMM_SELF BUFFER_COMM_WORLD st,
    default_instances COMM_SELF (MkState objs ∅ world)
      = (Ok BUFFER_COMM_SELF, Ok BUFFER_COMM_WORLD, st) /\
    BUFFER_COMM_SELF <> BUFFER_COMM_WORLD /\
    objects st !! BUFFER_COMM_SELF
      = Some (BufferComm (default OtherClass (objs !! COMM_SELF)) COMM_SELF) /\
    objects st !! BUFFER_COMM_WORLD
      = Some (BufferComm (default OtherClass (objs !! world)) world) /\
    buffer_comm_registry st
      = <[hex world := BUFFER_COMM_WORLD]>
          {[hex COMM_SELF := BUFFER_COMM_SELF]} /\
    get_BufferComm_obj None st = (Ok BUFFER_COMM_WORLD, st) /\
    get_BufferComm_obj (Some world) st = (Ok BUFFER_COMM_WORLD, st) /\
    get_BufferComm_obj (Some COMM_SELF) st = (Ok BUFFER_COMM_SELF, st).
Proof.
  intros Hne Hs Hw.
  set (st0 := MkState objs ∅ world) in *.
  assert (Hnv : forall st o, buffer_comm_registry st !! hex o = None ->
            (forall k, buffer_comm_registry st !! k <> Some o) ->
            wrap o st =
              (Ok (fresh (dom (objects st))),
               MkState
                 (<[fresh (dom (objects st)) := BufferComm (class_of st o) o]>
                    (objects st))
                 (<[hex o := fresh (dom (objects st))]>
                    (buffer_comm_registry st))
                 (COMM_WORLD st))).
  { intros st o Hk Hv. unfold wrap. rewrite Hk.
    destruct (is_value st o) eqn:E; [|done].
    apply is_value_spec in E as [k E]. by destruct (Hv k). }
  pose proof (fresh_object st0) as Hf1.
  set (w1 := fresh (dom (objects st0))) in *.
  assert (E1 : get_BufferComm_obj (Some COMM_SELF) st0 =
            (Ok w1, MkState (<[w1 := BufferComm (class_of st0 COMM_SELF)
                                       COMM_SELF]> objs)
                            {[hex COMM_SELF := w1]} world)).
  { unfold get_BufferComm_obj. rewrite Hs. rewrite Hnv; [done|done|].
    intros k. simpl. by rewrite lookup_empty. }
  set (st1 := MkState _ _ world) in E1.
  destruct (intracomm_live _ _ Hs) as [cs Hcs].
  destruct (intracomm_live _ _ Hw) as [cw Hcw]. simpl in Hcs, Hcw, Hf1.
  assert (Hw1s : w1 <> COMM_SELF) by congruence.
  assert (Hw1w : w1 <> world) by congruence.
  assert (Hcls1 : class_of st1 world = class_of st0 world).
  { unfold class_of. simpl. by rewrite lookup_insert_ne. }
  pose proof (fresh_object st1) as Hf2.
  set (w2 := fresh (dom (objects st1))) in *.
  assert (Hw21 : w2 <> w1).
  { intros E. rewrite E in Hf2. simpl in Hf2.
    by rewrite lookup_insert_eq in Hf2. }
  assert (Hhex : hex world <> hex COMM_SELF).
  { intros E. by apply hex_inj in E. }
  assert (E2 : get_BufferComm_obj (Some world) st1 =
            (Ok w2, MkState (<[w2 := BufferComm (class_of st0 world) world]>
                               (objects st1))
                            (<[hex world := w2]> {[hex COMM_SELF := w1]})
                            world)).
  { unfold get_BufferComm_obj. rewrite Hcls1, Hw. rewrite Hnv.
    - by rewrite Hcls1.
    - simpl. by rewrite lookup_singleton_ne.
    - intros k. simpl. intros [_ E]%lookup_singleton_Some. congruence. }
  set (st2 := MkState _ _ world) in E2.
  exists w1, w2, st2. split_and!.
  - unfold default_instances. rewrite E1.
    change (COMM_WORLD st1) with world. by rewrite E2.
  - done.
  - simpl. rewrite lookup_insert_ne by done. by rewrite lookup_insert_eq.
  - simpl. by rewrite lookup_insert_eq.
  - done.
  - unfold get_BufferComm_obj, wrap. simpl. by rewrite lookup_insert_eq.
  - unfold get_BufferComm_obj, wrap, class_of. simpl.
    simpl in Hf2.
    rewrite lookup_insert_ne
      by (intros E; rewrite E in Hf2; rewrite lookup_insert_ne in Hf2 by done;
          congruence).
    rewrite lookup_insert_ne by done. unfold class_of in Hw. simpl in Hw.
    rewrite Hw. by rewrite lookup_insert_eq.
  - unfold get_BufferComm_obj, wrap, class_of. simpl.
    simpl in Hf2.
    rewrite lookup_insert_ne
      by (intros E; rewrite E in Hf2; rewrite lookup_insert_ne in Hf2 by done;
          congruence).
    rewrite lookup_insert_ne by done. unfold class_of in Hs. simpl in Hs.
    rewrite Hs. rewrite lookup_insert_ne by done.
    by rewrite lookup_singleton_eq.
Qed.

Lemma default_instances_made_witness :
  exists BUFFER_COMM_SELF BUFFER_COMM_WORLD st,
    default_instances 2%N Examples.st0
      = (Ok BUFFER_COMM_SELF, Ok BUFFER_COMM_WORLD, st) /\
    BUFFER_COMM_SELF <> BUFFER_COMM_WORLD /\
    get_BufferComm_obj None st = (Ok BUFFER_COMM_WORLD, st).
Proof.
  assert (Hne : 2%N <> 1%N) by discriminate.
  assert (Hs : is_intracomm (class_of Examples.st0 2%N) = true)
    by reflexivity.
  assert (Hw : is_intracomm (class_of Examples.st0 1%N) = true)
    by reflexivity.
  destruct (default_instances_made
              {[ 1%N := MPI_Intracomm; 2%N := MPI_Intracomm ]} 2%N 1%N
              Hne Hs Hw)
    as (bs & bw & st & E & Hd & _ & _ & _ & Hn & _).
  exists bs, bw, st. split_and!; [exact E | exact Hd | exact Hn].
Defined.

End RegistryMore.

(** ** More on attribute access *)

Module AttributesMore.
Import Attributes AttributesInit.

Abbreviation obj := (gmap string pyattr) (only parsing).

Lemma dir_dict (o : obj) (name : string) :
  name ∈ py_dir o <-> is_Some (o !! name).
Proof.
  simpl. rewrite list_elem_of_fmap. split.
  - intros [[k a] [-> Hin]]. apply elem_of_map_to_list in Hin. eauto.
  - intros [a Ha]. exists (name, a). split; [done|].
    by apply elem_of_map_to_list.
Qed.

Lemma forwarded_dict (comm : obj) (name : string) :
  forwarded comm name =
    Ok match comm !! name with
       | Some a => negb (is_method a)
       | None => false
       end.
Proof.
  unfold forwarded. destruct (comm !! name) as [a|] eqn:E.
  - rewrite bool_decide_eq_true_2 by (apply dir_dict; eauto).
    simpl. by rewrite E.
  - rewrite bool_decide_eq_false_2; [done|].
    intros [? ?]%dir_dict. congruence.
Qed.

Lemma getattribute_dict (comm self : obj) (name : string) :
  __getattribute__ comm self name =
    match comm !! name with
    | Some (Plain v) => Ok (Plain v)
    | _ => py_getattr self name
    end.
Proof.
  unfold __getattribute__. rewrite forwarded_dict.
  destruct (comm !! name) as [[| |]|] eqn:E; simpl; by rewrite ?E.
Qed.

Lemma setattr_dict (comm self : obj) (name : string) (value : pyattr) :
  __setattr__ comm self name value =
    Ok match comm !! name with
       | Some (Plain _) => (<[name := value]> comm, self)
       | _ => (comm, <[name := value]> self)
       end.
Proof.
  unfold __setattr__. rewrite forwarded_dict.
  by destruct (comm !! name) as [[| |]|].
Qed.

Section wrapper.
Context {C W : Type} `{PyObject C} `{PyObject W}.

(** Writing and then reading through the wrapper, whatever kind of
    objects the communicator and the wrapper object are.  A name that is
    forwarded is written on the communicator, the wrapper object staying
    as it was; if the communicator then lists the name and holds the
    value, the value is read back through the wrapper, unless it is a
    method: then the name is no longer forwarded and the read is the
    wrapper object's own.  A name that is not forwarded is written on
    the wrapper object, the communicator staying as it was; if the
    wrapper object then holds the value, it is read back, and a name the
    communicator did not list is still not listed by [dir].  An
    exception of the object's own assignment (the [TypeError] of a
    property setter, the [AttributeError] of a property without one)
    ends the assignment through the wrapper. *)
Theorem setattr_then_getattribute (comm : C) (self : W) (name : string)
  (value : pyattr) :
  (forall c', forwarded comm name = Ok true ->
     py_setattr comm name value = Ok c' ->
     name ∈ py_dir c' -> py_getattr c' name = Ok value ->
     __setattr__ comm self name value = Ok (c', self) /\
     __getattribute__ c' self name =
       if is_method value then py_getattr self name else Ok value) /\
  (forall w', forwarded comm name = Ok false ->
     py_setattr self name value = Ok w' ->
     py_getattr w' name = Ok value ->
     __setattr__ comm self name value = Ok (comm, w') /\
     __getattribute__ comm w' name = Ok value /\
     (name ∉ py_dir comm -> name ∉ __dir__ comm w')) /\
  (forall e,
     (forwarded comm name = Ok true /\
      py_setattr comm name value = Raise e) \/
     (forwarded comm name = Ok false /\
      py_setattr self name value = Raise e) ->
     __setattr__ comm self name value = Raise e).
Proof.
  split_and!.
  - intros c' Hf Hset Hdir Hget. unfold __setattr__, __getattribute__.
    rewrite Hf, Hset. split; [done|].
    rewrite (AttributesFacts.forwarded_data _ _ _ Hdir Hget).
    destruct (is_method value); [done|]. simpl. by rewrite Hget.
  - intros w' Hf Hset Hget. unfold __setattr__, __getattribute__, __dir__.
    rewrite Hf, Hset. by split_and!.
  - intros e [[Hf Hset]|[Hf Hset]]; unfold __setattr__;
      by rewrite Hf, Hset.
Qed.

(** Deleting and then reading through the wrapper, whatever kind of
    objects the communicator and the wrapper object are.  A forwarded
    name is deleted on the communicator, the wrapper object staying as it
    was; if the communicator then no longer lists the name, the read
    through the wrapper is the wrapper object's own, whose attribute of
    that name shows through.  A name that is not forwarded is deleted on
    the wrapper object, and the read stays the wrapper object's own; if
    that deletion raises (a method of the class cannot be deleted from
    the object), the wrapper raises the same and the read is as before. *)
Theorem delattr_then_getattribute (comm : C) (self : W) (name : string) :
  (forall c', forwarded comm name = Ok true ->
     py_delattr comm name = Ok c' -> name ∉ py_dir c' ->
     __delattr__ comm self name = Ok (c', self) /\
     __getattribute__ c' self name = py_getattr self name) /\
  (forall w', forwarded comm name = Ok false ->
     py_delattr self name = Ok w' ->
     __delattr__ comm self name = Ok (comm, w') /\
     __getattribute__ comm w' name = py_getattr w' name) /\
  (forall e, forwarded comm name = Ok false ->
     py_delattr self name = Raise e ->
     __delattr__ comm self name = Raise e /\
     __getattribute__ comm self name = py_getattr self name).
Proof.
  split_and!.
  - intros c' Hf Hdel Hdir. unfold __delattr__, __getattribute__.
    rewrite Hf, Hdel. split; [done|].
    by rewrite (AttributesFacts.forwarded_absent _ _ Hdir).
  - intros w' Hf Hdel. unfold __delattr__, __getattribute__.
    by rewrite Hf, Hdel.
  - intros e Hf Hdel. unfold __delattr__, __getattribute__.
    by rewrite Hf, Hdel.
Qed.

End wrapper.

Lemma setattr_then_getattribute_witness :
  __setattr__ Examples.comm0 Examples.self0 "name" (Plain (VStr "x"))
    = Ok (<["name" := Plain (VStr "x")]> Examples.comm0, Examples.self0) /\
  __getattribute__ (<["name" := Plain (VStr "x")]> Examples.comm0)
    Examples.self0 "name" = Ok (Plain (VStr "x")).
Proof.
  apply (proj1 (setattr_then_getattribute Examples.comm0 Examples.self0
                  "name" (Plain (VStr "x")))).
  - reflexivity.
  - reflexivity.
  - apply (bool_decide_unpack _). vm_compute. exact I.
  - reflexivity.
Defined.

Lemma delattr_then_getattribute_witness :
  __delattr__ Examples.comm0 Examples.self0 "_rank" =
    Ok (Examples.comm0, delete "_rank" Examples.self0) /\
  __getattribute__ Examples.comm0 (delete "_rank" Examples.self0) "_rank"
    = Raise AttributeError.
Proof.
  assert (Hf : forwarded Examples.comm0 "_rank" = Ok false)
    by (vm_compute; reflexivity).
  assert (Hdel : py_delattr Examples.self0 "_rank"
                 = Ok (delete "_rank" Examples.self0))
    by (vm_compute; reflexivity).
  destruct (proj1 (proj2 (delattr_then_getattribute Examples.comm0
                            Examples.self0 "_rank"))
              (delete "_rank" Examples.self0) Hf Hdel) as [Hd Hg].
  split; [exact Hd|]. rewrite Hg. vm_compute. reflexivity.
Defined.

Lemma hasattr_dict (comm self : obj) (name : string) :
  hasattr comm self name =
    Ok match comm !! name with
       | Some (Plain _) => true
       | _ => bool_decide (is_Some (self !! name))
       end.
Proof.
  unfold hasattr. rewrite getattribute_dict.
  destruct (comm !! name) as [[| |]|]; simpl; try done;
    by destruct (self !! name).
Qed.

(** [BufferComm.__init__], for objects whose attributes are a
    dictionary: it always succeeds and leaves the wrapped communicator as
    it was; afterwards [_rank] and [_size] can both be read through the
    wrapper; each is what could be read before, when something could,
    and the value of [comm.Get_rank()] (or [comm.Get_size()]) otherwise;
    and running [__init__] again, with whatever values, changes
    nothing. *)
Theorem init_binds_rank_size (comm self : obj) (Get_rank Get_size : pyval) :
  exists w',
    __init__ Get_rank Get_size comm self = Ok (comm, w') /\
    __getattribute__ comm w' "_rank" =
      match __getattribute__ comm self "_rank" with
      | Ok a => Ok a
      | Raise _ => Ok (Plain Get_rank)
      end /\
    __getattribute__ comm w' "_size" =
      match __getattribute__ comm self "_size" with
      | Ok a => Ok a
      | Raise _ => Ok (Plain Get_size)
      end /\
    forall Get_rank' Get_size',
      __init__ Get_rank' Get_size' comm w' = Ok (comm, w').
Proof.
  assert (Hne : "_rank" <> "_size") by done.
  assert (Hne' : "_size" <> "_rank") by done.
  unfold __init__.
  setoid_rewrite hasattr_dict. setoid_rewrite getattribute_dict.
  destruct (comm !! "_rank") as [[f|f|v]|] eqn:Er;
    destruct (comm !! "_size") as [[g|g|u]|] eqn:Es;
    destruct (self !! "_rank") as [r|] eqn:Esr;
    destruct (self !! "_size") as [z|] eqn:Esz; simpl;
    rewrite ?setattr_dict, ?Er, ?Es; simpl;
    rewrite ?hasattr_dict, ?Er, ?Es, ?lookup_insert_ne, ?Esz by done; simpl;
    rewrite ?setattr_dict, ?Er, ?Es; simpl;
    eexists; (split; [reflexivity|]);
    rewrite ?lookup_insert_eq, ?lookup_insert_ne, ?lookup_insert_eq,
      ?Esr, ?Esz by done; simpl;
    (split_and!; [done | done |]);
    intros rank' size'; simpl;
    rewrite ?setattr_dict, ?hasattr_dict, ?Er, ?Es, ?lookup_insert_eq,
      ?lookup_insert_ne, ?lookup_insert_eq, ?Esr, ?Esz by done; simpl;
    rewrite ?hasattr_dict, ?Er, ?Es, ?lookup_insert_eq,
      ?lookup_insert_ne, ?lookup_insert_eq, ?Esr, ?Esz by done; done.
Qed.

End AttributesMore.

(** ** More on the buffer-aware communicator *)

Module BufferCommMore.
Import Transport BufferComm.

(** *** Around a communicator of the dummy layer *)

(** A broadcast through the wrapper of a dummy communicator, with the
    rank of the communicator as root, returns the very object it was
    given and leaves the store as it was, whatever the object: nothing is
    copied, and the error about the byte size cannot arise. *)
Theorem dummy_bcast_root (rt : runtime) (c : dummyMPI.Comm) (obj : pyval)
  (h : store) :
  (forall l, obj = VArr l -> is_Some (h !! l)) ->
  dummy_bcast rt c obj (dummyMPI.Get_rank c) h = Returned obj h.
Proof.
  intros Hlive. unfold dummy_bcast, bcast. rewrite decide_True by done.
  unfold bcast_sender. destruct obj as [| | | |k items|l]; try done.
  destruct (Hlive l eq_refl) as [a ->]. done.
Qed.

Lemma dummy_bcast_root_witness :
  dummy_bcast Examples.rt0 dummyMPI.COMM_WORLD
    (VSeq KTuple [VArr 0%nat; VInt Examples.huge]) 0 Examples.h0
    = Returned (VSeq KTuple [VArr 0%nat; VInt Examples.huge]) Examples.h0.
Proof.
  apply (dummy_bcast_root Examples.rt0 dummyMPI.COMM_WORLD).
  intros l [=].
Defined.

(** A broadcast through the wrapper of a dummy communicator with another
    root takes the receiver's side, on which the dummy [bcast] hands the
    caller's own argument back as the received message: an argument of
    two items whose first is not the array tag yields its second item; an
    argument that has the form of an array descriptor yields a new,
    uninitialised array of the described shape and element type; a list
    or tuple of another length raises [ValueError]. *)
Theorem dummy_bcast_other_root (rt : runtime) (c : dummyMPI.Comm)
  (root : nat) (h : store) :
  root <> dummyMPI.Get_rank c ->
  (forall k t v, is_tag t = false ->
     dummy_bcast rt c (VSeq k [t; v]) root h = Returned v h) /\
  (forall k k' s sh d, to_shape s = Some sh ->
     dummy_bcast rt c (VSeq k [VStr ndarray_tag; VSeq k' [s; VDtype d]])
       root h
     = Returned (VArr (length h)) (h ++ [np_empty rt sh d])) /\
  (forall k items, length items <> 2%nat ->
     dummy_bcast rt c (VSeq k items) root h = Raised ValueError h).
Proof.
  intros Hroot. unfold dummy_bcast, bcast.
  destruct (decide (dummyMPI.Get_rank c = root)) as [E|_]; [by destruct Hroot|].
  unfold bcast_receiver. split_and!.
  - intros k t v Ht. cbn [run_dummy propagate dummyMPI.bcast].
    unfold unpack2. cbn. by rewrite Ht.
  - intros k k' s sh d Hs. cbn [run_dummy propagate dummyMPI.bcast].
    unfold unpack2. cbn. by rewrite Hs.
  - intros k items Hlen. cbn [run_dummy propagate dummyMPI.bcast].
    unfold unpack2. cbn.
    by destruct items as [|? [|? [|? ?]]].
Qed.

Lemma dummy_bcast_other_root_witness :
  dummy_bcast Examples.rt0 dummyMPI.COMM_WORLD
    (VSeq KList [VStr "int"; VInt 5]) 1 Examples.h0
    = Returned (VInt 5) Examples.h0.
Proof.
  assert (Hroot : 1%nat <> dummyMPI.Get_rank dummyMPI.COMM_WORLD)
    by discriminate.
  apply (proj1 (dummy_bcast_other_root Examples.rt0 dummyMPI.COMM_WORLD 1
                  Examples.h0 Hroot)).
  reflexivity.
Defined.

(** A gather of an object that is not an array through the wrapper of a
    dummy communicator returns the list of that one object, the object
    itself and not a copy, for every root; the error about the size
    cannot arise. *)
Theorem dummy_gather_object (rt : runtime) (c : dummyMPI.Comm) (obj : pyval)
  (root : nat) (h : store) :
  (forall l, obj <> VArr l) ->
  dummy_gather rt c obj root h = Returned (VSeq KList [obj]) h.
Proof.
  intros Hobj. unfold dummy_gather, gather.
  destruct obj as [| | | |k items|l]; try done. by destruct (Hobj l).
Qed.

Lemma dummy_gather_object_witness :
  dummy_gather Examples.rt0 dummyMPI.COMM_WORLD (VInt Examples.huge) 3
    Examples.h0
    = Returned (VSeq KList [VInt Examples.huge]) Examples.h0.
Proof.
  apply (dummy_gather_object Examples.rt0 dummyMPI.COMM_WORLD). intros l [=].
Defined.

(** A gather of an array through the wrapper of a dummy communicator
    with a root other than the rank of the communicator takes the
    sender's side: the one process there is gets [None] and no array;
    the store it had is still there, followed by the flattened send
    buffer and the copy the dummy [Gatherv] made of it. *)
Theorem dummy_gather_array_other_root (rt : runtime) (c : dummyMPI.Comm)
  (root : nat) (l : loc) (a : ndarray) (h : store) :
  root <> dummyMPI.Get_rank c -> h !! l = Some a ->
  exists ext,
    dummy_gather rt c (VArr l) root h
      = Returned VNone
          (h ++ ext ++ [ravel (send_object rt a); ravel (send_object rt a)]).
Proof.
  intros Hroot Hl. unfold dummy_gather, gather. rewrite Hl.
  unfold gather_array. cbn [run_dummy propagate]. unfold gather_shaped.
  destruct (BufferCommFacts.replace_empty_spec rt a l h Hl) as (ph & E & L).
  destruct (replace_empty rt a l h) as [lobj h']. simpl in E, L. subst h'.
  rewrite L. rewrite decide_False by done.
  unfold gather_send. cbn [alloc run_dummy from_option].
  unfold dummyMPI.Gatherv, dummyMPI._scatter_gather.
  cbn [dummyMPI._get_buffer mbind result_bind].
  unfold dummyMPI.copy. cbn [dummyMPI.deepcopy].
  cbn [fst snd]. rewrite lookup_empty.
  rewrite (lookup_app_r (h ++ ph)) by done. rewrite Nat.sub_diag.
  exists ph. cbn. by rewrite <- !(assoc_L (++)).
Qed.

Lemma dummy_gather_array_other_root_witness :
  exists ext,
    dummy_gather Examples.rt0 dummyMPI.COMM_WORLD (VArr 0%nat) 1 Examples.h0
      = Returned VNone
          (Examples.h0 ++ ext ++
             [ravel (send_object Examples.rt0 Examples.full2);
              ravel (send_object Examples.rt0 Examples.full2)]).
Proof.
  assert (Hroot : 1%nat <> dummyMPI.Get_rank dummyMPI.COMM_WORLD)
    by discriminate.
  assert (Hl : Examples.h0 !! 0%nat = Some Examples.full2) by reflexivity.
  exact (dummy_gather_array_other_root Examples.rt0 dummyMPI.COMM_WORLD 1
           0 Examples.full2 Examples.h0 Hroot Hl).
Defined.

(** *** The first collective of a gather *)

Section first_gather.
Import GatherGroups TransportFacts.
Context (tr : transport) (rt : runtime) (root : nat)
  (inputs : list (pyval * store)) (msgs : list pickled).
Hypothesis Hall : Forall2 first_message inputs msgs.

Lemma first_call (i : nat) (x : pyval * store) (m : pickled) :
  first_message x m ->
  exists o k,
    gather rt i (length inputs) x.1 root x.2
      = Call (Transport.gather o root) x.2 k /\
    pickle x.2 o = Some m /\
    forall v h,
      k (Ok v) h =
        match x.1 with
        | VArr l =>
            match x.2 !! l with
            | Some a => gather_shaped rt i (length inputs) a l root v h
            | None => Throw ValueError h
            end
        | _ => Return v h
        end.
Proof.
  destruct x as [o h]. unfold first_message. cbn [fst snd].
  destruct o as [| | | |k items|l]; intros Hm.
  1-5: by eexists _, _.
  destruct Hm as (a & Hl & ->). unfold gather. rewrite Hl.
  eexists _, _. split_and!; [done | apply pickle_shape_val | done].
Qed.

Lemma first_sent :
  mapM sent_pickle (group_gather rt root inputs) = Some msgs.
Proof.
  apply mapM_Some. unfold group_gather.
  apply Forall2_same_length_lookup_2.
  { rewrite length_imap. by eapply Forall2_length. }
  intros i p m Hp Hm. apply imap_lookup_Some in Hp as (x & Hx & ->).
  pose proof (Forall2_lookup_lr _ _ _ _ _ _ Hall Hx Hm) as Hxm.
  destruct (first_call i x m Hxm) as (o & k & -> & Ho & _). done.
Qed.

Lemma first_step :
  Forall (fun m => oversized tr m = false) msgs ->
  (root < length inputs)%nat ->
  step tr (group_gather rt root inputs)
    = imap (first_gathered rt root (length inputs) msgs) inputs.
Proof.
  intros Hfit Hroot.
  assert (Hne : inputs <> []) by (destruct inputs; simpl in *; [lia|done]).
  apply (step_imap tr _ _ inputs (Transport.gather VNone root) Hne Hroot).
  intros i x Hx.
  destruct (Forall2_lookup_l _ _ _ _ _ Hall Hx) as (m & Hm & Hxm).
  destruct (first_call i x m Hxm) as (o & k & E & Ho & Hk).
  rewrite E. cbn [local deliver matches root_of]. rewrite Ho.
  rewrite bool_decide_eq_true_2 by done.
  split_and!; [|reflexivity|].
  { rewrite Forall_lookup in Hfit. rewrite (Hfit i m Hm).
    by destruct (decide (i = root)). }
  unfold first_gathered. destruct (decide (i = root)) as [->|Hi].
  - fold (group_gather rt root inputs). rewrite first_sent.
    rewrite (existsb_fit tr msgs Hfit).
    destruct (unpickle (PSeq KList msgs) x.2) as [v h']. apply Hk.
  - apply Hk.
Qed.

Lemma local_gather_shaped (i r n : nat) (a : ndarray) (l : loc) (v : pyval)
  (h : store) :
  local tr i (gather_shaped rt r n a l root v h)
    = gather_shaped rt r n a l root v h /\
  forall w h', gather_shaped rt r n a l root v h <> Return w h'.
Proof.
  unfold gather_shaped, gather_recv, gather_send.
  repeat case_match; try done; simplify_eq; done.
Qed.

Lemma local_first_gathered (i : nat) (x : pyval * store) :
  local tr i (first_gathered rt root (length inputs) msgs i x)
    = first_gathered rt root (length inputs) msgs i x.
Proof.
  unfold first_gathered.
  destruct (if decide (i = root) then _ else _) as [v h].
  destruct x.1; try done. destruct (x.2 !! l); [|done].
  apply local_gather_shaped.
Qed.

End first_gather.

Lemma holds_object_first (x : pyval * store) (m : pickled) :
  GatherGroups.holds_object x m -> GatherGroups.first_message x m.
Proof.
  intros [Hk Hp]. unfold GatherGroups.first_message. by destruct x.1.
Qed.

(** A gather of objects none of which is an array, every message within
    the ceiling of the generic path: every process returns after the one
    generic gather; the root returns a list with one item per process, in
    the order of the ranks, built in its own store, which is otherwise as
    it was, and item [r] pickles to the message of rank [r]; every other
    process returns [None] and its store is as it was. *)
Theorem gather_objects_returns (tr : transport) (rt : runtime) (root : nat)
  (inputs : list (pyval * store)) (msgs : list pickled) (fuel : nat) :
  Forall2 GatherGroups.holds_object inputs msgs ->
  Forall (fun m => oversized tr m = false) msgs ->
  (root < length inputs)%nat -> (1 <= fuel)%nat ->
  forall i x, inputs !! i = Some x ->
    (i <> root ->
       run tr fuel (group_gather rt root inputs) !! i
         = Some (Returned VNone x.2)) /\
    (i = root ->
       exists vs new,
         run tr fuel (group_gather rt root inputs) !! i
           = Some (Returned (VSeq KList vs) (x.2 ++ new)) /\
         mapM (pickle (x.2 ++ new)) vs = Some msgs /\
         length vs = length inputs).
Proof.
  intros Hobj Hfit Hroot Hfuel.
  assert (Hall : Forall2 GatherGroups.first_message inputs msgs).
  { eapply Forall2_impl; [exact Hobj|]. apply holds_object_first. }
  assert (Hrun : run tr fuel (group_gather rt root inputs) =
            finish <$> imap (GatherGroups.first_gathered rt root
                               (length inputs) msgs) inputs).
  { apply (TransportFacts.run_steps tr 1); [| |done].
    - simpl. by apply first_step.
    - apply TransportFacts.step_returned. intros i x Hx.
      destruct (Forall2_lookup_l _ _ _ _ _ Hobj Hx) as (m & _ & Hk & _).
      unfold GatherGroups.first_gathered.
      destruct (if decide (i = root) then _ else _) as [v h].
      by destruct x.1. }
  intros i x Hx. rewrite Hrun.
  rewrite (BufferCommFacts.finish_imap_lookup _ _ _ _ Hx).
  destruct (Forall2_lookup_l _ _ _ _ _ Hobj Hx) as (m & _ & Hk & _).
  unfold GatherGroups.first_gathered. split.
  - intros Hi. rewrite decide_False by done. by destruct x.1.
  - intros Hi. rewrite decide_True by done.
    destruct (TransportFacts.unpickle_spec (PSeq KList msgs) x.2)
      as (new & E & P).
    rewrite TransportFacts.unpickle_seq in *.
    destruct (thread unpickle msgs x.2) as [vs h'] eqn:Ht.
    simpl in E, P. subst h'. exists vs, new.
    destruct (mapM (pickle (x.2 ++ new)) vs) as [ms|] eqn:Hms; [|done].
    simpl in P. injection P as ->.
    split_and!; [by destruct x.1 | done |].
    apply length_mapM in Hms. rewrite Hms.
    symmetry. by eapply Forall2_length.
Qed.

Lemma gather_objects_returns_witness :
  run Examples.tr0 1
    (group_gather Examples.rt0 1 [(VInt 5, []); (VStr "a", Examples.h0)])
    !! 0%nat = Some (Returned VNone []) /\
  exists vs new,
    run Examples.tr0 1
      (group_gather Examples.rt0 1 [(VInt 5, []); (VStr "a", Examples.h0)])
      !! 1%nat = Some (Returned (VSeq KList vs) (Examples.h0 ++ new)) /\
    mapM (pickle (Examples.h0 ++ new)) vs = Some [PInt 5; PStr "a"].
Proof.
  assert (Hobj : Forall2 GatherGroups.holds_object
                   [(VInt 5, []); (VStr "a", Examples.h0)]
                   [PInt 5; PStr "a"])
    by (repeat constructor).
  assert (Hfit : Forall (fun m => oversized Examples.tr0 m = false)
                   [PInt 5; PStr "a"]) by (repeat constructor).
  pose proof (gather_objects_returns Examples.tr0 Examples.rt0 1
                [(VInt 5, []); (VStr "a", Examples.h0)] [PInt 5; PStr "a"] 1
                Hobj Hfit (le_n 2) (le_n 1)) as Hthm.
  split.
  - apply (proj1 (Hthm 0%nat (VInt 5, []) eq_refl)). discriminate.
  - destruct (proj2 (Hthm 1%nat (VStr "a", Examples.h0) eq_refl) eq_refl)
      as (vs & new & Hrun & Hp & _).
    by exists vs, new.
Defined.

Lemma existsb_oversized (tr : transport) (msgs : list pickled) (j : nat)
  (mj : pickled) :
  msgs !! j = Some mj -> oversized tr mj = true ->
  existsb (oversized tr) msgs = true.
Proof.
  revert j. induction msgs as [|m msgs IH]; intros [|j] Hj Hbig; try done.
  - simpl in Hj. injection Hj as ->. simpl. by rewrite Hbig.
  - simpl in *. rewrite (IH j Hj Hbig). by destruct (oversized tr m).
Qed.

(** A gather of objects none of which is an array, in which the message
    of some process, the root or another, is over the ceiling of the
    generic path: the root raises the error that the argument is too
    large, with its store as it was. *)
Theorem gather_oversized_raises (tr : transport) (rt : runtime) (root : nat)
  (inputs : list (pyval * store)) (msgs : list pickled) (fuel : nat)
  (j : nat) (mj : pickled) (xr : pyval * store) :
  Forall2 GatherGroups.holds_object inputs msgs ->
  msgs !! j = Some mj -> oversized tr mj = true ->
  inputs !! root = Some xr -> (1 <= fuel)%nat ->
  run tr fuel (group_gather rt root inputs) !! root
    = Some (Raised (InputError too_large_message []) xr.2).
Proof.
  intros Hobj Hj Hbig Hxr Hfuel.
  assert (Hall : Forall2 GatherGroups.first_message inputs msgs).
  { eapply Forall2_impl; [exact Hobj|]. apply holds_object_first. }
  assert (Hroot : (root < length inputs)%nat) by (by eapply lookup_lt_Some).
  assert (Hne : inputs <> []) by (destruct inputs; simpl in *; [lia|done]).
  set (g := fun rank (x : pyval * store) =>
              gather rt rank (length inputs) x.1 root x.2).
  assert (Hcall : forall i x, inputs !! i = Some x ->
            exists m, msgs !! i = Some m /\ pickle x.2 x.1 = Some m /\
            g i x = Call (Transport.gather x.1 root) x.2
                      (fun r h =>
                         match r with
                         | Raise SystemError =>
                             Throw (InputError too_large_message []) h
                         | _ => propagate (fun buff h => Return buff h) r h
                         end)).
  { intros i x Hx.
    destruct (Forall2_lookup_l _ _ _ _ _ Hobj Hx) as (m & Hm & Hk & Hp).
    exists m. split_and!; [done | done |]. unfold g, gather.
    by destruct x.1. }
  destruct (Hcall root xr Hxr) as (mr & Hmr & Hpr & Er).
  destruct (oversized tr mr) eqn:Hown.
  - (* the root fails on its own message *)
    set (g' := GatherGroups.root_failed rt root (length inputs)).
    assert (Hloc : forall i y, inputs !! i = Some y ->
              local tr i (g i y) = g' i y /\ local tr i (g' i y) = g' i y).
    { intros i y Hy. destruct (Hcall i y Hy) as (m & Hm & Hp & E).
      unfold g', GatherGroups.root_failed. fold (g i y).
      destruct (decide (i = root)) as [->|Hi].
      - assert (y = xr) as -> by congruence.
        assert (m = mr) as -> by congruence.
        rewrite E. cbn [local]. rewrite Hp, Hown.
        by rewrite decide_True by done.
      - rewrite E. cbn [local]. rewrite Hp. by rewrite decide_False by done. }
    assert (Hend : finish (g' root xr) <> Blocked).
    { unfold g', GatherGroups.root_failed. by rewrite decide_True by done. }
    rewrite (TransportFacts.run_steps tr 1 _ (imap g' inputs)); [| | |done].
    + rewrite (BufferCommFacts.finish_imap_lookup _ _ _ _ Hxr).
      unfold g', GatherGroups.root_failed. by rewrite decide_True by done.
    + simpl. apply (TransportFacts.step_local tr g g' inputs root xr);
        [|done|done]. intros i y Hy. by apply Hloc.
    + apply (TransportFacts.step_local tr g' g' inputs root xr);
        [|done|done]. intros i y Hy. by apply Hloc.
  - (* the root finds the message of another process too large *)
    rewrite (TransportFacts.run_steps tr 1 _
               (imap (GatherGroups.gather_failed root) inputs)); [| | |done].
    + rewrite (BufferCommFacts.finish_imap_lookup _ _ _ _ Hxr).
      unfold GatherGroups.gather_failed. by rewrite decide_True by done.
    + simpl.
      apply (TransportFacts.step_imap tr g _ inputs
               (Transport.gather VNone root) Hne Hroot).
      intros i y Hy. destruct (Hcall i y Hy) as (m & Hm & Hp & E).
      rewrite E. cbn [local deliver matches root_of]. rewrite Hp.
      rewrite bool_decide_eq_true_2 by done.
      unfold GatherGroups.gather_failed.
      destruct (decide (i = root)) as [->|Hi].
      * assert (m = mr) as -> by congruence. rewrite Hown.
        split_and!; [done | done |].
        change (imap g inputs) with (group_gather rt root inputs).
        rewrite (first_sent rt root inputs msgs Hall).
        by rewrite (existsb_oversized tr msgs j mj Hj Hbig).
      * by split_and!.
    + apply TransportFacts.step_returned. intros i y _.
      unfold GatherGroups.gather_failed. by destruct (decide (i = root)).
Qed.

Lemma gather_oversized_raises_witness :
  run Examples.tr0 3 (group_gather Examples.rt0 0 Examples.inputs_huge)
    !! 0%nat = Some (Raised (InputError too_large_message []) []).
Proof.
  assert (Hobj : Forall2 GatherGroups.holds_object Examples.inputs_huge
                   [PInt Examples.huge; PNone]).
  { constructor; [split; reflexivity|].
    constructor; [split; reflexivity|]. constructor. }
  assert (Hbig : oversized Examples.tr0 (PInt Examples.huge) = true).
  { unfold oversized. apply bool_decide_eq_true_2.
    cbn [pickled_size Examples.tr0 Examples.bytes].
    assert (H : Z.log2 (Z.abs Examples.huge) = 2 ^ 35).
    { unfold Examples.huge. rewrite Z.abs_eq by (apply Z.pow_nonneg; done).
      apply Z.log2_pow2. done. }
    rewrite H. unfold ceiling. done. }
  exact (gather_oversized_raises Examples.tr0 Examples.rt0 0
           Examples.inputs_huge [PInt Examples.huge; PNone] 3 0
           (PInt Examples.huge) (VInt Examples.huge, []) Hobj eq_refl Hbig
           eq_refl ltac:(repeat constructor)).
Defined.

(** A gather in which some processes give an array and the others give
    something else, every first message within the ceiling: the one
    generic gather, which every process makes, completes, and a process
    without an array returns after it.  If it is not the root it returns
    [None] with its store as it was; if it is the root it returns the
    list, by rank, of what was gathered, in which the entry of a process
    with an array is the shape of that array and not the array. *)
Theorem gather_mixed_kinds (tr : transport) (rt : runtime) (root : nat)
  (inputs : list (pyval * store)) (msgs : list pickled) (fuel : nat)
  (i : nat) (x : pyval * store) :
  Forall2 GatherGroups.first_message inputs msgs ->
  Forall (fun m => oversized tr m = false) msgs ->
  (root < length inputs)%nat -> (1 <= fuel)%nat ->
  inputs !! i = Some x -> GatherGroups.is_array x.1 = false ->
  (i <> root ->
     run tr fuel (group_gather rt root inputs) !! i
       = Some (Returned VNone x.2)) /\
  (i = root ->
     exists vs new,
       run tr fuel (group_gather rt root inputs) !! i
         = Some (Returned (VSeq KList vs) (x.2 ++ new)) /\
       length vs = length inputs /\
       forall r y l a v,
         inputs !! r = Some y -> y.1 = VArr l -> y.2 !! l = Some a ->
         vs !! r = Some v ->
         pickle (x.2 ++ new) v = Some (shape_pickle (shape a))).
Proof.
  intros Hall Hfit Hroot Hfuel Hx Hk.
  assert (Hrun : run tr fuel (group_gather rt root inputs) =
            finish <$> imap (GatherGroups.first_gathered rt root
                               (length inputs) msgs) inputs).
  { apply (TransportFacts.run_steps tr 1); [| |done].
    - simpl. by apply first_step.
    - apply (TransportFacts.step_stuck tr _ i
               (GatherGroups.first_gathered rt root (length inputs) msgs
                  i x)).
      + intros k q Hq.
        apply TransportFacts.imap_lookup_Some in Hq as (y & Hy & ->).
        apply local_first_gathered.
      + by rewrite list_lookup_imap, Hx.
      + unfold GatherGroups.first_gathered.
        destruct (if decide (i = root) then _ else _) as [v h].
        by destruct x.1. }
  rewrite Hrun. rewrite (BufferCommFacts.finish_imap_lookup _ _ _ _ Hx).
  unfold GatherGroups.first_gathered. split.
  - intros Hi. rewrite decide_False by done. by destruct x.1.
  - intros Hi. rewrite decide_True by done.
    destruct (TransportFacts.unpickle_spec (PSeq KList msgs) x.2)
      as (new & E & P).
    rewrite TransportFacts.unpickle_seq in *.
    destruct (thread unpickle msgs x.2) as [vs h'] eqn:Ht.
    simpl in E, P. subst h'. exists vs, new.
    destruct (mapM (pickle (x.2 ++ new)) vs) as [ms|] eqn:Hms; [|done].
    simpl in P. injection P as ->.
    split_and!; [by destruct x.1 | |].
    + apply length_mapM in Hms. rewrite Hms.
      symmetry. by eapply Forall2_length.
    + intros r y l a v Hy Hl Ha Hv.
      apply mapM_Some_1 in Hms.
      destruct (Forall2_lookup_l _ _ _ _ _ Hms Hv) as (m & Hm & Hpv).
      pose proof (Forall2_lookup_lr _ _ _ _ _ _ Hall Hy Hm) as Hfm.
      unfold GatherGroups.first_message in Hfm. rewrite Hl in Hfm.
      destruct Hfm as (a' & Ha' & ->). by simplify_eq.
Qed.

Lemma gather_mixed_kinds_witness :
  exists vs new,
    run Examples.tr0 5
      (group_gather Examples.rt0 0 [(VInt 5, []); (VArr 0%nat, Examples.h0)])
      !! 0%nat = Some (Returned (VSeq KList vs) ([] ++ new)) /\
    length vs = 2%nat.
Proof.
  assert (Hall : Forall2 GatherGroups.first_message
                   [(VInt 5, []); (VArr 0%nat, Examples.h0)]
                   [PInt 5; shape_pickle [2%nat]]).
  { constructor; [reflexivity|]. constructor; [|constructor].
    by exists Examples.full2. }
  assert (Hfit : Forall (fun m => oversized Examples.tr0 m = false)
                   [PInt 5; shape_pickle [2%nat]]) by (repeat constructor).
  destruct (gather_mixed_kinds Examples.tr0 Examples.rt0 0
              [(VInt 5, []); (VArr 0%nat, Examples.h0)]
              [PInt 5; shape_pickle [2%nat]] 5 0 (VInt 5, [])
              Hall Hfit (le_S _ _ (le_n 1)) ltac:(repeat constructor)
              eq_refl eq_refl) as [_ Hroot].
  destruct (Hroot eq_refl) as (vs & new & Hrun & Hlen & _).
  by exists vs, new.
Defined.

(** *** Witnesses for the buffer of a gather *)

Lemma gather_buffer_witness :
  exists hb buff cont,
    Nat.iter 1 (step Examples.tr0)
      (group_gather Examples.rt0 0 Examples.inputs253) !! 0%nat =
      Some (Call (Gatherv (S (length hb)) (Some (length hb)) 0)
              (hb ++ [buff; ravel (send_object Examples.rt0
                                     (NDArray [2%nat] Float64 [1; 2]))])
              cont) /\
    dtype_of buff = Float64 /\
    length (data buff) = 15%nat.
Proof.
  assert (Harr : Forall2 holds_array Examples.inputs253 Examples.arrays253).
  { repeat constructor; by exists 0%nat. }
  assert (Hdim : Forall (fun a => length (shape a) = 1%nat)
                   Examples.arrays253) by (repeat constructor).
  assert (Hfit : Forall (fun a => oversized Examples.tr0
                                    (shape_pickle (shape a)) = false)
                   Examples.arrays253) by (repeat constructor).
  assert (Hone : one_axis_differs 0 (shape <$> Examples.arrays253)).
  { intros s t j Hs Ht Hj. destruct j as [|j]; [done|].
    assert (H1 : forall u, u ∈ shape <$> Examples.arrays253 ->
                           u !! S j = None).
    { intros u Hu. simpl in Hu. set_unfold in Hu.
      by destruct Hu as [->|[->|[->|[]]]]. }
    by rewrite (H1 s Hs), (H1 t Ht). }
  exact (proj1 (BufferCommFacts.gather_buffer Examples.tr0 Examples.rt0 0
                  Examples.inputs253 Examples.arrays253 0 0
                  (NDArray [2%nat] Float64 [1; 2])
                  Harr Hdim Hfit Hone eq_refl)).
Defined.

Lemma dummy_gather_array_witness :
  exists hG,
    dummy_gather Examples.rt0 (dummyMPI.Intracomm "dummyMPI_COMM_WORLD")
      (VArr 0%nat) 0 Examples.h0
    = Returned (VSeq KList [VArr (length hG)]) (hG ++ [Examples.full2]).
Proof.
  apply (BufferCommFacts.dummy_gather_array Examples.rt0
           "dummyMPI_COMM_WORLD" Examples.full2 0 Examples.h0);
    [reflexivity | reflexivity | discriminate].
Defined.

End BufferCommMore.
